(** * Sensei document store: a shallow embedding of [sensei/database/storage.py]

    The development follows [src/sensei/database/storage.py]
    ([save_document], [get_document_by_url], [search_documents],
    [delete_documents_by_domain], and the query log) together with the two
    migrations that declare the tables
    ([alembic/versions/001_initial_schema.py] and
    [alembic/versions/004_generation_based_crawls.py]).

    A PostgreSQL table is a list of rows, in the order a scan returns
    them.  A function that commits takes the table and returns the
    committed table next to its Python return value; a function that only
    reads returns its value.  A raised exception is the [Raise] branch of
    [Result] and leaves nothing committed.  One call is one transaction and
    calls do not interleave: the model is sequential. *)

From Stdlib Require Import List String Ascii ZArith NArith Bool Arith Lia.
Import ListNotations.
Local Open Scope string_scope.
Local Open Scope list_scope.

(** ** Values *)

(** [UUID(as_uuid=True)] columns: only equality of identifiers is used. *)
Definition UUID : Type := N.
Bind Scope N_scope with UUID.

(** [DateTime(timezone=True)] columns, as an instant on one time line. *)
Definition Timestamp : Type := Z.
Bind Scope Z_scope with Timestamp.

(** [sa.Integer()] columns hold 32 bits; the driver refuses any other
    Python [int]. *)
Definition fits_integer (z : Z) : bool :=
  ((-2147483648 <=? z)%Z && (z <=? 2147483647)%Z)%bool.

(** ** Exceptions and fallible results *)

Inductive Exception : Type :=
| MultipleResultsFound   (* [scalar_one_or_none] on more than one row *)
| IntegrityError         (* a primary key, unique, foreign key or check
                            constraint refused an INSERT *)
| DBAPIError.            (* the driver or PostgreSQL refused the statement:
                            a negative LIMIT, a value outside its column's
                            range, a column the table does not have *)

Inductive Result (A : Type) : Type :=
| Ok (a : A)
| Raise (e : Exception).

Arguments Ok {A} a.
Arguments Raise {A} e.

Definition bind {A B : Type} (c : Result A) (k : A -> Result B) : Result B :=
  match c with
  | Ok a => k a
  | Raise e => Raise e
  end.

Notation "x <- c ;; k" := (bind c (fun x => k))
  (at level 61, c at next level, right associativity).

(** ** [sensei.types.SaveResult]

    The three members [save_document] returns.  The specification calls the
    third outcome UNCHANGED; the code names it [SKIPPED]. *)
Inductive SaveResult : Type := INSERTED | UPDATED | SKIPPED.

(** ** The [documents] table *)

(** The two shapes the table has.  Migration 001 creates it with [depth];
    migration 004 drops [depth] and adds [generation_id] and
    [generation_active].  [storage.py] reads and writes [depth]. *)
Inductive Schema : Type :=
| WithDepth          (* before revision 004 *)
| WithGenerations.   (* at revision 004 *)

Module Document.

(** A row of [documents] in either shape: a column the table does not
    have holds [None].  Rows written under [WithDepth] have a [depth] and
    no generation columns; the back-fill of migration 004 turns them into
    rows with both generation columns and no [depth]. *)
Record t : Type := mk {
  id : UUID;
  domain : string;
  url : string;
  path : string;
  content : string;
  content_hash : string;
  content_refreshed_at : Timestamp;
  depth : option Z;
  generation_id : option UUID;
  generation_active : option bool;
  inserted_at : Timestamp;
  updated_at : Timestamp
}.

End Document.

Definition Documents : Type := list Document.t.

(** What the ORM declaration of [Document] ([sensei/database/models.py],
    not part of the sources at hand) decides and the migrations do not:
    whether an UPDATE refreshes [updated_at]. *)
Record Models : Type := {
  updated_at_onupdate : bool
}.

(** What one call reads from outside the table: the Python clock
    ([datetime.now(UTC)]), the server clock ([now()] of the column
    defaults), the identifier [gen_random_uuid()] draws for a new row, and
    the revision the schema is at. *)
Record World : Type := {
  now : Timestamp;
  server_now : Timestamp;
  gen_random_uuid : UUID;
  schema : Schema
}.

(** ** SQL building blocks *)

(** [select(Document).where(p)]. *)
Definition select_where (p : Document.t -> bool) (documents : Documents)
  : list Document.t :=
  filter p documents.

(** [result.scalar_one_or_none()]. *)
Definition scalar_one_or_none {A : Type} (rows : list A) : Result (option A) :=
  match rows with
  | [] => Ok None
  | [row] => Ok (Some row)
  | _ :: _ :: _ => Raise MultipleResultsFound
  end.

(** [session.add(doc); await session.commit()]: the INSERT.  The driver
    refuses a [depth] outside 32 bits; then [sa.PrimaryKeyConstraint("id")]
    and [sa.UniqueConstraint("url")] of migration 001 are checked. *)
Definition session_add (documents : Documents) (doc : Document.t)
  : Result Documents :=
  if negb (match Document.depth doc with
           | Some z => fits_integer z
           | None => false
           end)
  then Raise DBAPIError
  else if existsb (fun d => N.eqb (Document.id d) (Document.id doc)) documents
  then Raise IntegrityError
  else if existsb (fun d => Document.url d =? Document.url doc) documents
  then Raise IntegrityError
  else Ok (documents ++ [doc]).

(** The UPDATE the session flushes for a modified object: keyed by the
    primary key of the loaded row.  The list keeps the row at its place,
    which a PostgreSQL scan without ORDER BY need not do: the new row
    version may come back at another position.  The rows themselves, and
    the order of the rows that are not updated, are as here. *)
Definition session_flush (pk : UUID) (f : Document.t -> Document.t)
    (documents : Documents) : Documents :=
  map (fun d => if N.eqb (Document.id d) pk then f d else d) documents.

(** The four assignments of the update branch of [save_document]:
    [content_refreshed_at] from the Python clock; [updated_at], when the
    ORM refreshes it, from the server's. *)
Definition assign (M : Models) (W : World) (content content_hash : string)
    (depth : Z) (existing : Document.t) : Document.t :=
  {| Document.id := Document.id existing;
     Document.domain := Document.domain existing;
     Document.url := Document.url existing;
     Document.path := Document.path existing;
     Document.content := content;
     Document.content_hash := content_hash;
     Document.content_refreshed_at := now W;
     Document.depth := Some depth;
     Document.generation_id := Document.generation_id existing;
     Document.generation_active := Document.generation_active existing;
     Document.inserted_at := Document.inserted_at existing;
     Document.updated_at :=
       if updated_at_onupdate M then server_now W
       else Document.updated_at existing |}.

(** [Document(domain=..., url=..., path=..., content=..., content_hash=...,
    depth=...)] once inserted: the six named columns and the server
    defaults of migration 001 ([gen_random_uuid()], [now()]).  The table it
    goes into has no generation columns. *)
Definition new_document (M : Models) (W : World)
    (domain url path content content_hash : string) (depth : Z) : Document.t :=
  {| Document.id := gen_random_uuid W;
     Document.domain := domain;
     Document.url := url;
     Document.path := path;
     Document.content := content;
     Document.content_hash := content_hash;
     Document.content_refreshed_at := server_now W;
     Document.depth := Some depth;
     Document.generation_id := None;
     Document.generation_active := None;
     Document.inserted_at := server_now W;
     Document.updated_at := server_now W |}.

(** ** [save_document]

    The function reads and writes the [depth] column, which revision 004
    drops: it works on the table of revisions 001 to 003, whose rows have a
    [depth] and no generation columns, and raises on any other.  The update
    branch sends [depth] with its UPDATE, and the driver refuses a value
    outside 32 bits; the skip branch sends nothing. *)

(** The rows of a table in shape [s]. *)
Definition row_at (s : Schema) (d : Document.t) : bool :=
  match s, Document.depth d, Document.generation_id d,
        Document.generation_active d with
  | WithDepth, Some _, None, None => true
  | WithGenerations, None, Some _, Some _ => true
  | _, _, _, _ => false
  end.

Definition has_depth_column (W : World) (documents : Documents) : bool :=
  match schema W with
  | WithDepth => forallb (row_at WithDepth) documents
  | WithGenerations => false
  end.

Definition save_document (M : Models) (W : World) (documents : Documents)
    (domain url path content content_hash : string) (depth : Z)
  : Result (Documents * SaveResult) :=
  if has_depth_column W documents then
    existing <- scalar_one_or_none
                  (select_where (fun d => Document.url d =? url) documents) ;;
    match existing with
    | Some existing =>
        if Document.content_hash existing =? content_hash
        then Ok (documents, SKIPPED)
        else if fits_integer depth
        then Ok (session_flush (Document.id existing)
                   (assign M W content content_hash depth) documents,
                 UPDATED)
        else Raise DBAPIError
    | None =>
        documents' <- session_add documents
                        (new_document M W domain url path content
                           content_hash depth) ;;
        Ok (documents', INSERTED)
    end
  else Raise DBAPIError.

(** ** [get_document_by_url] *)

Definition get_document_by_url (documents : Documents) (url : string)
  : Result (option Document.t) :=
  scalar_one_or_none (select_where (fun d => Document.url d =? url) documents).

(** ** Text, bytes and letter case

    A Python [str] is held as its UTF-8 encoding and [bytes] as they are,
    both in [string], one [ascii] per byte.  Text is taken to be without
    U+0000, which PostgreSQL cannot store. *)

Definition byte_in (lo hi : nat) (c : ascii) : bool :=
  ((lo <=? nat_of_ascii c)%nat && (nat_of_ascii c <=? hi)%nat)%bool.

(** A UTF-8 continuation byte, [10xxxxxx]. *)
Definition is_continuation (c : ascii) : bool := byte_in 128 191 c.

(** PostgreSQL's [lower] follows the database's LC_CTYPE: it maps the text
    character by character.  [towlower] is that map on a character outside
    ASCII, given and returned as its lead byte and the bytes after it. *)
Record Locale : Type := {
  towlower : ascii -> string -> ascii * string
}.

(** [lower] on the ASCII letters, as in every locale but the Turkic ones. *)
Definition lower_ascii (c : ascii) : ascii :=
  let n := nat_of_ascii c in
  if ((65 <=? n)%nat && (n <=? 90)%nat)%bool then ascii_of_nat (n + 32) else c.

(** One character: a byte and the continuation bytes that follow it. *)
Definition lower_char (L : Locale) (lead : ascii) (rest : string) : string :=
  if byte_in 0 127 lead then String (lower_ascii lead) rest
  else let (c, r) := towlower L lead rest in String c r.

(** [lower_tail L lead rest s]: the character [lead rest] is being read,
    [s] is still to come. *)
Fixpoint lower_tail (L : Locale) (lead : ascii) (rest : string) (s : string)
  : string :=
  match s with
  | EmptyString => lower_char L lead rest
  | String c s' =>
      if is_continuation c
      then lower_tail L lead (rest ++ String c EmptyString)%string s'
      else (lower_char L lead rest ++ lower_tail L c EmptyString s')%string
  end.

Definition lower (L : Locale) (s : string) : string :=
  match s with
  | EmptyString => EmptyString
  | String c s' => lower_tail L c EmptyString s'
  end.

(** ** [search_documents] *)

(** [content LIKE '%' || pattern || '%'] for a pattern whose wildcards are
    escaped ([autoescape=True]): the pattern occurs somewhere in [s]. *)
Fixpoint contains (s pattern : string) : bool :=
  if prefix pattern s then true
  else match s with
       | EmptyString => false
       | String _ s' => contains s' pattern
       end.

(** [Document.content.icontains(query, autoescape=True)]:
    [lower(content) LIKE '%' || lower(query) || '%']. *)
Definition icontains (L : Locale) (content query : string) : bool :=
  contains (lower L content) (lower L query).

(** Python truthiness of [domain: Optional[str]] in [if domain:]. *)
Definition truthy (domain : option string) : bool :=
  match domain with
  | None => false
  | Some dom => negb (dom =? "")
  end.

(** The WHERE clause [search_documents] builds. *)
Definition search_where (L : Locale) (query : string) (domain : option string)
    (d : Document.t) : bool :=
  (match domain with
   | Some dom => if truthy domain then Document.domain d =? dom else true
   | None => true
   end)
  && icontains L (Document.content d) query.

(** The statement has no ORDER BY: the rows come in scan order and LIMIT
    keeps the first [limit] of those the WHERE clause lets through;
    PostgreSQL rejects a negative LIMIT. *)
Definition search_documents (L : Locale) (documents : Documents)
    (query : string) (domain : option string) (limit : Z)
  : Result (list Document.t) :=
  if (limit <? 0)%Z then Raise DBAPIError
  else Ok (firstn (Z.to_nat limit)
             (select_where (search_where L query domain) documents)).

(** ** [delete_documents_by_domain]

    [delete(Document).where(Document.domain == domain)], committed; the
    second component is [result.rowcount]. *)
Definition delete_documents_by_domain (documents : Documents) (domain : string)
  : Documents * nat :=
  (filter (fun d => negb (Document.domain d =? domain)) documents,
   List.length (filter (fun d => Document.domain d =? domain) documents)).

(** ** Migration 004: what [upgrade] does to the rows

    [depth] is dropped and the two generation columns are added, empty;
    then [UPDATE documents SET generation_id = gen_random_uuid(),
    generation_active = true WHERE generation_id IS NULL].  The function
    is volatile, so every updated row draws its own identifier:
    [gen_random_uuid k] is the [k]-th draw of the statement. *)
Module Migration004.

Definition populate (g : UUID) (d : Document.t) : Document.t :=
  {| Document.id := Document.id d;
     Document.domain := Document.domain d;
     Document.url := Document.url d;
     Document.path := Document.path d;
     Document.content := Document.content d;
     Document.content_hash := Document.content_hash d;
     Document.content_refreshed_at := Document.content_refreshed_at d;
     Document.depth := None;
     Document.generation_id := Some g;
     Document.generation_active := Some true;
     Document.inserted_at := Document.inserted_at d;
     Document.updated_at := Document.updated_at d |}.

Fixpoint upgrade_from (gen_random_uuid : nat -> UUID) (k : nat)
    (documents : Documents) : Documents :=
  match documents with
  | [] => []
  | d :: rest =>
      match Document.generation_id d with
      | None => populate (gen_random_uuid k) d
                :: upgrade_from gen_random_uuid (S k) rest
      | Some _ => d :: upgrade_from gen_random_uuid k rest
      end
  end.

Definition upgrade (gen_random_uuid : nat -> UUID) (documents : Documents)
  : Documents :=
  upgrade_from gen_random_uuid 0 documents.

End Migration004.

(** ** Table invariants *)


(** Within a domain, the active rows carry one generation. *)
Definition one_active_generation (documents : Documents) : Prop :=
  forall d1 d2,
    In d1 documents -> In d2 documents ->
    Document.domain d1 = Document.domain d2 ->
    Document.generation_active d1 = Some true ->
    Document.generation_active d2 = Some true ->
    Document.generation_id d1 = Document.generation_id d2.

(** Within a domain, the rows that belong to one generation are active
    together or inactive together. *)
Definition all_or_nothing (documents : Documents) : Prop :=
  forall d1 d2 g,
    In d1 documents -> In d2 documents ->
    Document.domain d1 = Document.domain d2 ->
    Document.generation_id d1 = Some g ->
    Document.generation_id d2 = Some g ->
    Document.generation_active d1 = Document.generation_active d2.

Definition activation_invariant (documents : Documents) : Prop :=
  one_active_generation documents /\ all_or_nothing documents.

(** The tables the storage functions produce from the empty table.
    [search_documents] and [get_document_by_url] return rows only and
    commit nothing, so they add no transition. *)
Inductive reachable (M : Models) : Documents -> Prop :=
| reachable_empty : reachable M []
| reachable_save :
    forall W documents domain url path content content_hash depth documents' r,
      reachable M documents ->
      save_document M W documents domain url path content content_hash depth
        = Ok (documents', r) ->
      reachable M documents'
| reachable_delete :
    forall documents domain,
      reachable M documents ->
      reachable M (fst (delete_documents_by_domain documents domain)).

(** ** Sample data

    Rows after the calls of [tests/test_database.py], with shortened
    content; content hashes are opaque strings, as they are to the storage
    layer. *)

Definition sample_models : Models :=
  {| updated_at_onupdate := true |}.

(** A call before revision 004, both clocks reading [t]. *)
Definition world (t : Timestamp) (u : UUID) : World :=
  {| now := t; server_now := t; gen_random_uuid := u; schema := WithDepth |}.

(** A call at revision 004. *)
Definition world_004 (t : Timestamp) (u : UUID) : World :=
  {| now := t; server_now := t; gen_random_uuid := u;
     schema := WithGenerations |}.

(** The C locale: no character outside ASCII has another case. *)
Definition c_locale : Locale :=
  {| towlower := fun lead rest => (lead, rest) |}.

(** A locale that knows the capital letters of Latin-1: U+00C0..U+00DE
    (but the multiplication sign) are 32 below their small letters. *)
Definition latin_locale : Locale :=
  {| towlower := fun lead rest =>
       match rest with
       | String b EmptyString =>
           if (Ascii.eqb lead (ascii_of_nat 195)
               && byte_in 128 158 b
               && negb (Ascii.eqb b (ascii_of_nat 151)))%bool
           then (lead, String (ascii_of_nat (nat_of_ascii b + 32)) EmptyString)
           else (lead, rest)
       | _ => (lead, rest)
       end |}.

(** The row [test_save_document_skip_unchanged] inserts, written at
    instant 5 with identifier 1. *)
Definition example_doc : Document.t :=
  new_document sample_models (world 5 1)
    "example.com" "https://example.com/doc" "/doc"
    "# Original content" "hash-of-original" 0.

(** The first two rows [test_search_documents] inserts. *)
Definition react_hooks : Document.t :=
  new_document sample_models (world 10 1)
    "react.dev" "https://react.dev/hooks" "/hooks"
    "# React Hooks" "hash-of-hooks" 0.

Definition react_components : Document.t :=
  new_document sample_models (world 11 2)
    "react.dev" "https://react.dev/components" "/components"
    "# React Components" "hash-of-components" 0.

Definition vue_guide : Document.t :=
  new_document sample_models (world 12 3)
    "vue.js.org" "https://vue.js.org/guide" "/guide"
    "# Vue Guide" "hash-of-vue" 0.

(** A row whose content has a capital letter outside ASCII. *)
Definition cafe_doc : Document.t :=
  new_document sample_models (world 13 4)
    "cafe.example" "https://cafe.example/menu" "/menu"
    "CAFÉ au lait" "hash-of-menu" 0.

(** ** The [documents_active] view of migration 004

    [CREATE VIEW documents_active AS SELECT * FROM documents WHERE
    generation_active = true]. *)
Definition documents_active (documents : Documents) : list Document.t :=
  select_where (fun d => match Document.generation_active d with
                         | Some active => active
                         | None => false
                         end) documents.

(** ** The [queries] and [ratings] tables of migration 001 *)

Module Query.

Record t : Type := mk {
  id : UUID;
  query : string;
  language : option string;
  library : option string;
  version : option string;
  output : string;
  messages : option string;
  parent_id : option UUID;
  depth : Z;
  inserted_at : Timestamp;
  updated_at : Timestamp
}.

End Query.

Definition Queries : Type := list Query.t.

Module RatingModel.

Record t : Type := mk {
  id : UUID;
  query_id : UUID;
  correctness : Z;
  relevance : Z;
  usefulness : Z;
  reasoning : option string;
  agent_model : option string;
  agent_system : option string;
  agent_version : option string;
  inserted_at : Timestamp;
  updated_at : Timestamp
}.

End RatingModel.

Definition Ratings : Type := list RatingModel.t.

(** [sensei.types.Rating]: the attributes [save_rating] reads. *)
Module Rating.

Record t : Type := mk {
  query_id : UUID;
  correctness : Z;
  relevance : Z;
  usefulness : Z;
  reasoning : option string;
  agent_model : option string;
  agent_system : option string;
  agent_version : option string
}.

End Rating.

(** [sensei.types.CacheHit]: the keywords [search_queries] passes. *)
Module CacheHit.

Record t : Type := mk {
  query_id : UUID;
  query_truncated : string;
  age_days : Z;
  library : option string;
  version : option string
}.

End CacheHit.

(** ** Decoding and slicing text *)

(** Well-formed UTF-8 (no overlong form, no surrogate, nothing above
    U+10FFFF), as the strict decoder accepts it.  [need] continuation bytes
    are still due, the next of them within [lo..hi]. *)
Fixpoint utf8_from (need lo hi : nat) (s : string) : bool :=
  match s with
  | EmptyString => match need with O => true | S _ => false end
  | String c s' =>
      match need with
      | S need' => byte_in lo hi c && utf8_from need' 128 191 s'
      | O =>
          if byte_in 0 127 c then utf8_from 0 128 191 s'
          else if byte_in 194 223 c then utf8_from 1 128 191 s'
          else if byte_in 224 224 c then utf8_from 2 160 191 s'
          else if byte_in 225 236 c then utf8_from 2 128 191 s'
          else if byte_in 237 237 c then utf8_from 2 128 159 s'
          else if byte_in 238 239 c then utf8_from 2 128 191 s'
          else if byte_in 240 240 c then utf8_from 3 144 191 s'
          else if byte_in 241 243 c then utf8_from 3 128 191 s'
          else if byte_in 244 244 c then utf8_from 3 128 143 s'
          else false
      end
  end.

Definition utf8_valid (s : string) : bool := utf8_from 0 128 191 s.

(** [bytes.decode("utf-8")]: [None] stands for [UnicodeDecodeError]. *)
Definition decode_utf8 (b : string) : option string :=
  if utf8_valid b then Some b else None.

(** The continuation bytes [s] starts with, and what follows them. *)
Fixpoint continuation_prefix (s : string) : string :=
  match s with
  | EmptyString => EmptyString
  | String c s' =>
      if is_continuation c then String c (continuation_prefix s')
      else EmptyString
  end.

Fixpoint skip_continuation (s : string) : string :=
  match s with
  | EmptyString => EmptyString
  | String c s' => if is_continuation c then skip_continuation s' else s
  end.

(** [text[:n]]: the first [n] characters, each a lead byte with its
    continuation bytes. *)
Fixpoint take_chars (n : nat) (s : string) : string :=
  match n with
  | O => EmptyString
  | S n' =>
      match s with
      | EmptyString => EmptyString
      | String c s' =>
          String c (continuation_prefix s'
                    ++ take_chars n' (skip_continuation s'))%string
      end
  end.

(** [len(text)]: the number of characters, one per byte that starts one. *)
Fixpoint lead_count (s : string) : nat :=
  match s with
  | EmptyString => O
  | String c s' => (if is_continuation c then 0 else 1) + lead_count s'
  end.

Definition char_count (s : string) : nat :=
  match s with
  | EmptyString => O
  | String _ s' => S (lead_count s')
  end.

(** ** [LIKE] and [ILIKE]

    PostgreSQL's pattern match in a UTF-8 database, default escape
    character: [%] matches any run of characters, [_] one character, a
    backslash makes the next pattern byte literal, any other byte matches
    itself.  A pattern that ends in a lone backslash is an error in
    PostgreSQL and matches nothing here; [search_queries] never builds one
    ([search_pattern_terminated] below). *)
Fixpoint like (pattern text : string) : bool :=
  match pattern with
  | EmptyString =>
      match text with EmptyString => true | String _ _ => false end
  | String p pattern' =>
      if Ascii.eqb p "%" then
        (fix scan (at_char : bool) (t : string) {struct t} : bool :=
           (at_char && like pattern' t)
           || match t with
              | EmptyString => false
              | String _ t' =>
                  scan (match t' with
                        | EmptyString => true
                        | String c' _ => negb (is_continuation c')
                        end) t'
              end) true text
      else if Ascii.eqb p "_" then
        match text with
        | EmptyString => false
        | String _ t' => like pattern' (skip_continuation t')
        end
      else if Ascii.eqb p "\" then
        match pattern' with
        | EmptyString => false
        | String q pattern'' =>
            match text with
            | EmptyString => false
            | String c t' => Ascii.eqb q c && like pattern'' t'
            end
        end
      else
        match text with
        | EmptyString => false
        | String c t' => Ascii.eqb p c && like pattern' t'
        end
  end.

(** The scan [like] makes for [%]: try the rest of the pattern at every
    character start of the text, the end included. *)
Definition at_char_start (t : string) : bool :=
  match t with
  | EmptyString => true
  | String c _ => negb (is_continuation c)
  end.

Fixpoint like_scan (rest : string -> bool) (at_char : bool) (t : string)
  : bool :=
  (at_char && rest t)
  || match t with
     | EmptyString => false
     | String _ t' => like_scan rest (at_char_start t') t'
     end.

(** A term in which no byte is special to [LIKE]. *)
Fixpoint wildcard_free (term : string) : bool :=
  match term with
  | EmptyString => true
  | String c term' =>
      negb (Ascii.eqb c "%") && negb (Ascii.eqb c "_")
      && negb (Ascii.eqb c "\") && wildcard_free term'
  end.

(** [text ILIKE pattern]: both sides through [lower], then [LIKE]. *)
Definition ilike (L : Locale) (text pattern : string) : bool :=
  like (lower L pattern) (lower L text).

(** A pattern that ends inside an escape. *)
Fixpoint dangling_escape (pattern : string) : bool :=
  match pattern with
  | EmptyString => false
  | String p pattern' =>
      if Ascii.eqb p "\" then
        match pattern' with
        | EmptyString => true
        | String _ pattern'' => dangling_escape pattern''
        end
      else dangling_escape pattern'
  end.

(** ** Python exceptions around the database ones *)

Inductive PyError : Type :=
| UnicodeDecodeError
| DatabaseError (e : Exception).

Inductive Try (A : Type) : Type :=
| Returns (a : A)
| Raises (e : PyError).

Arguments Returns {A} a.
Arguments Raises {A} e.

(** ** [save_query]

    The record is built first, so bytes that do not decode raise before
    anything is sent; the driver then refuses a [depth] outside 32 bits
    ([queries.depth] is [sa.Integer()]) before PostgreSQL sees the
    INSERT. *)

(** The INSERT into [queries]: primary key and the foreign key
    [parent_id -> queries.id] of migration 001.  The parent is looked up
    among the rows stored before; no caller can name the id the new row is
    about to draw. *)
Definition insert_query (queries : Queries) (record : Query.t)
  : Result Queries :=
  if existsb (fun q => N.eqb (Query.id q) (Query.id record)) queries
  then Raise IntegrityError
  else
    match Query.parent_id record with
    | Some parent =>
        if existsb (fun q => N.eqb (Query.id q) parent) queries
        then Ok (queries ++ [record])
        else Raise IntegrityError
    | None => Ok (queries ++ [record])
    end.

(** [messages.decode("utf-8") if messages else None]: empty bytes are
    falsy. *)
Definition decode_messages (messages : option string) : option (option string) :=
  match messages with
  | None => Some None
  | Some EmptyString => Some None
  | Some b =>
      match decode_utf8 b with
      | Some text => Some (Some text)
      | None => None
      end
  end.

Definition save_query (W : World) (queries : Queries) (query output : string)
    (messages : option string) (language library version : option string)
    (parent_id : option UUID) (depth : Z) : Try (Queries * UUID) :=
  match decode_messages messages with
  | None => Raises UnicodeDecodeError
  | Some decoded =>
      let query_record :=
        {| Query.id := gen_random_uuid W;
           Query.query := query;
           Query.language := language;
           Query.library := library;
           Query.version := version;
           Query.output := output;
           Query.messages := decoded;
           Query.parent_id := parent_id;
           Query.depth := depth;
           Query.inserted_at := server_now W;
           Query.updated_at := server_now W |} in
      if fits_integer depth
      then match insert_query queries query_record with
           | Raise e => Raises (DatabaseError e)
           | Ok queries' => Returns (queries', Query.id query_record)
           end
      else Raises (DatabaseError DBAPIError)
  end.

(** ** [get_query] *)

Definition get_query (queries : Queries) (id : UUID) : Result (option Query.t) :=
  scalar_one_or_none (filter (fun q => N.eqb (Query.id q) id) queries).

(** ** [save_rating] *)

Definition in_range_1_5 (score : Z) : bool :=
  ((1 <=? score)%Z && (score <=? 5)%Z)%bool.

(** The INSERT into [ratings]: primary key, the foreign key
    [query_id -> queries.id] and the three range checks of migration 001;
    the other table is read, not written. *)
Definition save_rating (W : World) (queries : Queries) (ratings : Ratings)
    (rating : Rating.t) : Result Ratings :=
  let rating_record :=
    {| RatingModel.id := gen_random_uuid W;
       RatingModel.query_id := Rating.query_id rating;
       RatingModel.correctness := Rating.correctness rating;
       RatingModel.relevance := Rating.relevance rating;
       RatingModel.usefulness := Rating.usefulness rating;
       RatingModel.reasoning := Rating.reasoning rating;
       RatingModel.agent_model := Rating.agent_model rating;
       RatingModel.agent_system := Rating.agent_system rating;
       RatingModel.agent_version := Rating.agent_version rating;
       RatingModel.inserted_at := server_now W;
       RatingModel.updated_at := server_now W |} in
  if existsb (fun r => N.eqb (RatingModel.id r) (gen_random_uuid W)) ratings
  then Raise IntegrityError
  else if negb (existsb (fun q => N.eqb (Query.id q) (Rating.query_id rating))
                  queries)
  then Raise IntegrityError
  else if negb (in_range_1_5 (Rating.correctness rating)
                && in_range_1_5 (Rating.relevance rating)
                && in_range_1_5 (Rating.usefulness rating))
  then Raise IntegrityError
  else Ok (ratings ++ [rating_record]).

(** ** [search_queries] *)

(** Instants count microseconds; [timedelta.days] is the floor of the
    difference over one day. *)
Definition microseconds_per_day : Z := 86400000000.

Definition timedelta_days (later earlier : Timestamp) : Z :=
  ((later - earlier) / microseconds_per_day)%Z.

(** [f"%{search_term}%"]: the term goes into the pattern as it is. *)
Definition search_pattern (search_term : string) : string :=
  ("%" ++ search_term ++ "%")%string.

Definition cache_hit (W : World) (row : Query.t) : CacheHit.t :=
  {| CacheHit.query_id := Query.id row;
     CacheHit.query_truncated :=
       if Query.query row =? EmptyString then EmptyString
       else take_chars 100 (Query.query row);
     CacheHit.age_days := timedelta_days (now W) (Query.inserted_at row);
     CacheHit.library := Query.library row;
     CacheHit.version := Query.version row |}.

Definition search_queries (L : Locale) (W : World) (queries : Queries)
    (search_term : string) (limit : Z) : Result (list CacheHit.t) :=
  if (limit <? 0)%Z then Raise DBAPIError
  else
    let rows :=
      firstn (Z.to_nat limit)
        (filter (fun q => ilike L (Query.query q) (search_pattern search_term))
           queries) in
    Ok (map (cache_hit W) rows).

(** ** Invariants of the query log *)

Definition unique_query_ids (queries : Queries) : Prop :=
  NoDup (map Query.id queries).

(** Every [parent_id] names a row stored earlier in the table. *)
Fixpoint parents_precede (earlier : list UUID) (queries : Queries) : Prop :=
  match queries with
  | [] => True
  | q :: rest =>
      match Query.parent_id q with
      | Some parent => In parent earlier
      | None => True
      end
      /\ parents_precede (earlier ++ [Query.id q]) rest
  end.

(** Every rating belongs to a stored query and keeps its three scores
    within 1..5. *)
Definition ratings_valid (queries : Queries) (ratings : Ratings) : Prop :=
  forall r, In r ratings ->
    In (RatingModel.query_id r) (map Query.id queries)
    /\ (1 <= RatingModel.correctness r <= 5)%Z
    /\ (1 <= RatingModel.relevance r <= 5)%Z
    /\ (1 <= RatingModel.usefulness r <= 5)%Z.

(** The states [save_query] and [save_rating] build from empty tables. *)
Inductive log_reachable : Queries -> Ratings -> Prop :=
| log_empty : log_reachable [] []
| log_save_query :
    forall W queries ratings query output messages language library version
           parent_id depth queries' id,
      log_reachable queries ratings ->
      save_query W queries query output messages language library version
        parent_id depth = Returns (queries', id) ->
      log_reachable queries' ratings
| log_save_rating :
    forall W queries ratings rating ratings',
      log_reachable queries ratings ->
      save_rating W queries ratings rating = Ok ratings' ->
      log_reachable queries ratings'.

(** * Properties *)

(** ** Lists and keys *)

Lemma filter_none {A : Type} (p : A -> bool) (l : list A) :
  (forall x, In x l -> p x = false) -> filter p l = [].
Proof.
  induction l as [|x l IH]; simpl; intros H; [reflexivity|].
  rewrite (H x (or_introl eq_refl)). apply IH. intros y Hy. apply H. right. exact Hy.
Qed.

(** ** Selecting by primary key *)

Lemma existsb_key {A : Type} (key : A -> UUID) (k : UUID) (l : list A) :
  existsb (fun x => N.eqb (key x) k) l = true <-> In k (map key l).
Proof.
  rewrite existsb_exists, in_map_iff.
  split; intros [x [H1 H2]]; exists x.
  - apply N.eqb_eq in H2. auto.
  - rewrite H1. split; [exact H2 | apply N.eqb_refl].
Qed.

Lemma existsb_key_false {A : Type} (key : A -> UUID) (k : UUID) (l : list A) :
  existsb (fun x => N.eqb (key x) k) l = false <-> ~ In k (map key l).
Proof.
  rewrite <- existsb_key. destruct (existsb _ l); split; congruence.
Qed.

Lemma filter_key_absent {A : Type} (key : A -> UUID) (k : UUID) (l : list A) :
  ~ In k (map key l) -> filter (fun x => N.eqb (key x) k) l = [].
Proof.
  intros H. apply filter_none. intros x Hx. apply N.eqb_neq. intros E.
  apply H. rewrite <- E. apply in_map. exact Hx.
Qed.

Lemma filter_key_unique {A : Type} (key : A -> UUID) (l : list A) (x : A) :
  NoDup (map key l) -> In x l ->
  filter (fun y => N.eqb (key y) (key x)) l = [x].
Proof.
  induction l as [|y l IH]; intros Hnd Hin; [destruct Hin|].
  simpl in Hnd. inversion Hnd as [|k ks Hnot Hrest]; subst.
  destruct Hin as [->|Hin]; simpl.
  - rewrite N.eqb_refl. f_equal. apply filter_key_absent. exact Hnot.
  - destruct (N.eqb_spec (key y) (key x)) as [E|E].
    + exfalso. apply Hnot. rewrite E. apply in_map. exact Hin.
    + apply IH; assumption.
Qed.

(** * The rows an upsert leaves alone *)

Lemma unique_key_eq {A : Type} (key : A -> UUID) (l : list A) (x y : A) :
  NoDup (map key l) -> In x l -> In y l -> key x = key y -> x = y.
Proof.
  intros Hnd Hx Hy E.
  assert (Hin : In y (filter (fun z => N.eqb (key z) (key x)) l)).
  { apply filter_In. split; [exact Hy|]. apply N.eqb_eq. symmetry. exact E. }
  rewrite (filter_key_unique key l x Hnd Hx) in Hin.
  destruct Hin as [Hin|[]]. exact Hin.
Qed.

(** ** Selecting by url *)

(** ** Selecting by url *)


Lemma select_url_absent_inv (documents : Documents) (url : string) :
  select_where (fun d => Document.url d =? url) documents = [] ->
  forall d, In d documents -> Document.url d <> url.
Proof.
  unfold select_where. intros H d Hd E.
  assert (Hin : In d (filter (fun d => Document.url d =? url) documents)).
  { apply filter_In. split; [exact Hd|]. apply String.eqb_eq. exact E. }
  rewrite H in Hin. destruct Hin.
Qed.


Lemma select_url_head (documents : Documents) (url : string)
    (x : Document.t) (rest : list Document.t) :
  select_where (fun d => Document.url d =? url) documents = x :: rest ->
  In x documents /\ Document.url x = url.
Proof.
  unfold select_where. intros H.
  assert (Hx : In x (filter (fun d => Document.url d =? url) documents))
    by (rewrite H; left; reflexivity).
  apply filter_In in Hx. destruct Hx as [Hin E].
  apply String.eqb_eq in E. split; assumption.
Qed.

Lemma select_singleton_eq (documents : Documents) (url : string)
    (e existing : Document.t) :
  select_where (fun d => Document.url d =? url) documents = [e] ->
  In existing documents -> Document.url existing = url -> e = existing.
Proof.
  unfold select_where. intros Hsel Hin Hurl.
  assert (Hx : In existing (filter (fun d => Document.url d =? url) documents)).
  { apply filter_In. split; [exact Hin|]. apply String.eqb_eq. exact Hurl. }
  rewrite Hsel in Hx. destruct Hx as [Hx|[]]. exact Hx.
Qed.

(** ** The three branches of [save_document] *)


Lemma session_add_ok (documents documents' : Documents) (doc : Document.t) :
  session_add documents doc = Ok documents' <->
  documents' = documents ++ [doc]
  /\ (exists z, Document.depth doc = Some z /\ fits_integer z = true)
  /\ ~ In (Document.id doc) (map Document.id documents)
  /\ (forall d, In d documents -> Document.url d <> Document.url doc).
Proof.
  unfold session_add.
  destruct (Document.depth doc) as [z|] eqn:Hdepth.
  - destruct (fits_integer z) eqn:Hfit; simpl.
    + destruct (existsb (fun d => N.eqb (Document.id d) (Document.id doc))
                  documents) eqn:Hid.
      * apply existsb_key in Hid. split; [discriminate | tauto].
      * apply existsb_key_false in Hid.
        destruct (existsb (fun d => Document.url d =? Document.url doc)
                    documents) eqn:Hurl.
        -- split; [discriminate|]. intros [_ [_ [_ Hno]]].
           apply existsb_exists in Hurl. destruct Hurl as [d [Hd E]].
           apply String.eqb_eq in E. exfalso. exact (Hno d Hd E).
        -- split.
           ++ intros H. inversion H. split; [reflexivity|].
              split; [exists z; auto|]. split; [exact Hid|].
              intros d Hd E.
              assert (Ht : existsb (fun d => Document.url d =? Document.url doc)
                             documents = true).
              { apply existsb_exists. exists d. split; [exact Hd|].
                apply String.eqb_eq. exact E. }
              congruence.
           ++ intros [-> _]. reflexivity.
    + split; [discriminate|]. intros [_ [[z' [E Hz']] _]]. congruence.
  - simpl. split; [discriminate|]. intros [_ [[z' [E _]] _]]. discriminate E.
Qed.

Section SaveDocument.

Variables (M : Models) (W : World) (documents : Documents).
Variables (domain url path content content_hash : string) (depth : Z).

Lemma has_depth_column_spec :
  has_depth_column W documents = true <->
  schema W = WithDepth
  /\ forall d, In d documents -> row_at WithDepth d = true.
Proof.
  unfold has_depth_column. destruct (schema W).
  - rewrite forallb_forall. tauto.
  - split; [discriminate | intros [E _]; discriminate E].
Qed.

Lemma save_document_at_004 :
  schema W = WithGenerations ->
  save_document M W documents domain url path content content_hash depth
  = Raise DBAPIError.
Proof.
  intros H. unfold save_document, has_depth_column. rewrite H. reflexivity.
Qed.




(** A call that returns found the table with its [depth] column. *)
Lemma save_document_ok_schema (documents' : Documents) (r : SaveResult) :
  save_document M W documents domain url path content content_hash depth
  = Ok (documents', r) ->
  has_depth_column W documents = true.
Proof.
  unfold save_document.
  destruct (has_depth_column W documents); [reflexivity | discriminate].
Qed.

(** Every successful call went through exactly one of the branches. *)
Lemma save_document_cases (documents' : Documents) (r : SaveResult) :
  save_document M W documents domain url path content content_hash depth
  = Ok (documents', r) ->
  (select_where (fun d => Document.url d =? url) documents = [] /\
   documents' = documents
                ++ [new_document M W domain url path content content_hash depth] /\
   r = INSERTED)
  \/ (exists existing,
        select_where (fun d => Document.url d =? url) documents = [existing] /\
        Document.content_hash existing <> content_hash /\
        documents' = session_flush (Document.id existing)
                       (assign M W content content_hash depth) documents /\
        r = UPDATED)
  \/ (exists existing,
        select_where (fun d => Document.url d =? url) documents = [existing] /\
        Document.content_hash existing = content_hash /\
        documents' = documents /\ r = SKIPPED).
Proof.
  intros H. pose proof (save_document_ok_schema _ _ H) as Hs.
  unfold save_document in H. rewrite Hs in H.
  destruct (select_where (fun d => Document.url d =? url) documents)
    as [|existing [|other more]] eqn:Hsel; simpl in H.
  - destruct (session_add documents
                (new_document M W domain url path content content_hash depth))
      as [added|e] eqn:Hadd; simpl in H; [|discriminate].
    apply session_add_ok in Hadd. destruct Hadd as [-> _].
    inversion H; subst. left. auto.
  - destruct (String.eqb_spec (Document.content_hash existing) content_hash)
      as [E|E].
    + inversion H; subst. right. right. exists existing. auto.
    + destruct (fits_integer depth); [|discriminate].
      inversion H; subst. right. left. exists existing. auto.
  - discriminate.
Qed.

End SaveDocument.

(** ** What the UPDATE leaves alone *)

Section Flush.

Variables (M : Models) (W : World) (content content_hash : string) (depth : Z).
Variable pk : UUID.

Let flushed (d : Document.t) : Document.t :=
  if N.eqb (Document.id d) pk then assign M W content content_hash depth d else d.

Lemma flush_column {A : Type} (column : Document.t -> A) (documents : Documents) :
  (forall d, column (assign M W content content_hash depth d) = column d) ->
  map column (session_flush pk (assign M W content content_hash depth) documents)
  = map column documents.
Proof.
  intros Hc. unfold session_flush. rewrite map_map. apply map_ext.
  intros d. destruct (N.eqb (Document.id d) pk); [apply Hc | reflexivity].
Qed.

Lemma flush_select (p : Document.t -> bool) (documents : Documents) :
  (forall d, p (assign M W content content_hash depth d) = p d) ->
  select_where p
    (session_flush pk (assign M W content content_hash depth) documents)
  = map flushed (select_where p documents).
Proof.
  intros Hp. unfold select_where, session_flush.
  induction documents as [|x rest IH]; simpl; [reflexivity|].
  assert (E : p (if N.eqb (Document.id x) pk
                 then assign M W content content_hash depth x else x) = p x).
  { destruct (N.eqb (Document.id x) pk); [apply Hp | reflexivity]. }
  rewrite E. destruct (p x); simpl; rewrite IH; reflexivity.
Qed.

Lemma flush_In (documents : Documents) (d' : Document.t) :
  In d' (session_flush pk (assign M W content content_hash depth) documents) ->
  exists d, In d documents /\
            (d' = d \/ d' = assign M W content content_hash depth d).
Proof.
  unfold session_flush. intros H. apply in_map_iff in H.
  destruct H as [d [E Hd]]. exists d. split; [exact Hd|].
  destruct (N.eqb (Document.id d) pk); auto.
Qed.

End Flush.

Lemma flush_length (pk : UUID) (f : Document.t -> Document.t)
    (documents : Documents) :
  List.length (session_flush pk f documents) = List.length documents.
Proof. unfold session_flush. apply length_map. Qed.

(** After an update, the row found under [url] is the assigned one. *)
Lemma flush_select_url (M : Models) (W : World) (content content_hash : string)
    (depth : Z) (documents : Documents) (url : string) (existing : Document.t) :
  select_where (fun d => Document.url d =? url) documents = [existing] ->
  select_where (fun d => Document.url d =? url)
    (session_flush (Document.id existing)
       (assign M W content content_hash depth) documents)
  = [assign M W content content_hash depth existing].
Proof.
  intros H. rewrite flush_select by reflexivity. rewrite H. simpl.
  rewrite N.eqb_refl. reflexivity.
Qed.

Lemma select_url_app_new (documents : Documents) (doc : Document.t)
    (url : string) :
  Document.url doc = url ->
  select_where (fun d => Document.url d =? url) documents = [] ->
  select_where (fun d => Document.url d =? url) (documents ++ [doc]) = [doc].
Proof.
  unfold select_where. intros <- H. rewrite filter_app, H. simpl.
  rewrite String.eqb_refl. reflexivity.
Qed.

(** ** The url constraint is an invariant *)

(** ** The url constraint is an invariant *)





(** ** The shape of the table *)

Lemma row_at_depth (d : Document.t) :
  row_at WithDepth d = true <->
  (exists z, Document.depth d = Some z)
  /\ Document.generation_id d = None
  /\ Document.generation_active d = None.
Proof.
  unfold row_at.
  destruct (Document.depth d) as [z|], (Document.generation_id d) as [g|],
    (Document.generation_active d) as [a|]; split;
    try discriminate;
    try (intros [[z' E] [E1 E2]]; congruence).
  intros _. split; [exists z; reflexivity | split; reflexivity].
Qed.

Lemma assign_row_at (M : Models) (W : World) (content content_hash : string)
    (depth : Z) (d : Document.t) :
  row_at WithDepth d = true ->
  row_at WithDepth (assign M W content content_hash depth d) = true.
Proof.
  intros H. apply row_at_depth in H. destruct H as [_ [Hg Ha]].
  apply row_at_depth. simpl. split; [exists depth; reflexivity | split; assumption].
Qed.

(** A call that returns leaves a table of the same shape. *)
Lemma save_document_rows_at (M : Models) (W : World) (documents : Documents)
    (domain url path content content_hash : string) (depth : Z)
    (documents' : Documents) (r : SaveResult) :
  save_document M W documents domain url path content content_hash depth
  = Ok (documents', r) ->
  forall d, In d documents' -> row_at WithDepth d = true.
Proof.
  intros H. pose proof (save_document_ok_schema _ _ _ _ _ _ _ _ _ _ _ H) as Hs.
  apply has_depth_column_spec in Hs. destruct Hs as [_ Hrows].
  apply save_document_cases in H.
  destruct H as [[_ [-> _]] | [[e [_ [_ [-> _]]]] | [e [_ [_ [-> _]]]]]];
    intros d Hd.
  - apply in_app_or in Hd. destruct Hd as [Hd|[<-|[]]];
      [apply Hrows; exact Hd | reflexivity].
  - apply flush_In in Hd. destruct Hd as [d0 [Hd0 [->| ->]]];
      [apply Hrows; exact Hd0 | apply assign_row_at; apply Hrows; exact Hd0].
  - apply Hrows. exact Hd.
Qed.


(** The tables the storage functions build have a [depth] column and no
    generation columns. *)
Lemma reachable_rows_at (M : Models) (documents : Documents) :
  reachable M documents ->
  forall d, In d documents -> row_at WithDepth d = true.
Proof.
  induction 1 as [| W t domain url path content content_hash depth t' r _ IH H
                  | t domain _ IH].
  - intros d [].
  - eapply save_document_rows_at. exact H.
  - intros d Hd. simpl in Hd. apply filter_In in Hd. apply IH. tauto.
Qed.


(** ** The outcome of an upsert *)



(** ** What an upsert writes into an existing row *)




(** ** Activation: all or nothing per domain *)

(** A table whose rows all repeat the domain, generation and activity of
    rows of another table inherits its invariant. *)
Lemma activation_invariant_simulated (documents documents' : Documents) :
  (forall d', In d' documents' ->
     exists d, In d documents
               /\ Document.domain d' = Document.domain d
               /\ Document.generation_id d' = Document.generation_id d
               /\ Document.generation_active d' = Document.generation_active d) ->
  activation_invariant documents -> activation_invariant documents'.
Proof.
  intros Hsim [Hone Hall]. split.
  - intros a b Ha Hb Hdom Hact_a Hact_b.
    destruct (Hsim a Ha) as [a0 [Ha0 [Da [Ga Aa]]]].
    destruct (Hsim b Hb) as [b0 [Hb0 [Db [Gb Ab]]]].
    rewrite Ga, Gb. apply Hone; congruence.
  - intros a b g Ha Hb Hdom Hga Hgb.
    destruct (Hsim a Ha) as [a0 [Ha0 [Da [Ga Aa]]]].
    destruct (Hsim b Hb) as [b0 [Hb0 [Db [Gb Ab]]]].
    rewrite Aa, Ab. apply (Hall a0 b0 g); congruence.
Qed.

(** A table without the generation columns has no active row. *)
Lemma inactive_activation_invariant (documents : Documents) :
  (forall d, In d documents -> Document.generation_active d = None) ->
  activation_invariant documents.
Proof.
  intros Hoff. split.
  - intros a b Ha _ _ Hact _. rewrite (Hoff a Ha) in Hact. discriminate.
  - intros a b g Ha Hb _ _ _. rewrite (Hoff a Ha), (Hoff b Hb). reflexivity.
Qed.

Lemma filter_activation_invariant (p : Document.t -> bool)
    (documents : Documents) :
  activation_invariant documents -> activation_invariant (filter p documents).
Proof.
  apply activation_invariant_simulated. intros d' Hd'.
  apply filter_In in Hd'. exists d'. tauto.
Qed.

Lemma rows_at_inactive (documents : Documents) :
  (forall d, In d documents -> row_at WithDepth d = true) ->
  forall d, In d documents -> Document.generation_active d = None.
Proof. intros H d Hd. apply (row_at_depth d). apply H. exact Hd. Qed.

Lemma search_documents_rows (L : Locale) (documents : Documents)
    (query : string) (domain : option string) (limit : Z)
    (rows : list Document.t) :
  search_documents L documents query domain limit = Ok rows ->
  rows = firstn (Z.to_nat limit)
           (select_where (search_where L query domain) documents).
Proof.
  unfold search_documents. destruct (limit <? 0)%Z; [discriminate|].
  intros H. inversion H. reflexivity.
Qed.

Lemma In_firstn {A : Type} (n : nat) (l : list A) (x : A) :
  In x (firstn n l) -> In x l.
Proof.
  revert l. induction n as [|n IH]; intros [|y l]; simpl; try tauto.
  intros [->|H]; [left; reflexivity | right; apply IH; exact H].
Qed.


(** C3, as the code has it.  The tables that upsert and delete calls build
    from the empty table have no [generation_active] column, hence no
    active row: in each of them no domain has an active generation and the
    invariant holds.  Each operation preserves the invariant from whatever
    table it is given: an upsert that returns, a delete, and a search,
    which commits nothing and returns rows of the table only. *)
Theorem activation_invariant_storage (M : Models) :
  (forall documents,
     reachable M documents ->
     (forall d, In d documents -> Document.generation_active d = None)
     /\ activation_invariant documents)
  /\ (forall W documents domain url path content content_hash depth documents' r,
        activation_invariant documents ->
        save_document M W documents domain url path content content_hash depth
        = Ok (documents', r) ->
        activation_invariant documents')
  /\ (forall documents domain,
        activation_invariant documents ->
        activation_invariant (fst (delete_documents_by_domain documents domain)))
  /\ (forall L documents query domain limit rows,
        search_documents L documents query domain limit = Ok rows ->
        forall d, In d rows -> In d documents).
Proof.
  split; [|split; [|split]].
  - intros documents Hr.
    pose proof (rows_at_inactive _ (reachable_rows_at M _ Hr)) as Hoff.
    split; [exact Hoff | apply inactive_activation_invariant; exact Hoff].
  - intros W documents domain url path content content_hash depth documents' r
           _ H.
    apply inactive_activation_invariant. apply rows_at_inactive.
    eapply save_document_rows_at. exact H.
  - intros documents domain Hinv. simpl.
    apply filter_activation_invariant. exact Hinv.
  - intros L documents query domain limit rows H d Hd.
    apply search_documents_rows in H. subst rows.
    apply In_firstn in Hd. unfold select_where in Hd.
    apply filter_In in Hd. tauto.
Qed.

(** ** Migration 004 *)

(** Rows written before the migration all come out of it active. *)
Lemma upgrade_from_activates (gen_random_uuid : nat -> UUID) (k : nat)
    (documents : Documents) :
  (forall d, In d documents -> Document.generation_id d = None) ->
  forall d, In d (Migration004.upgrade_from gen_random_uuid k documents) ->
            Document.generation_active d = Some true.
Proof.
  revert k. induction documents as [|x rest IH]; intros k Hnull d Hd;
    [destruct Hd|].
  simpl in Hd. rewrite (Hnull x (or_introl eq_refl)) in Hd.
  destruct Hd as [<-|Hd]; [reflexivity|].
  apply (IH (S k)); [|exact Hd]. intros y Hy. apply Hnull. right. exact Hy.
Qed.

(** They have the shape of the migrated table. *)
Lemma upgrade_from_rows_at (gen_random_uuid : nat -> UUID) (k : nat)
    (documents : Documents) :
  (forall d, In d documents -> Document.generation_id d = None) ->
  forall d, In d (Migration004.upgrade_from gen_random_uuid k documents) ->
            row_at WithGenerations d = true.
Proof.
  revert k. induction documents as [|x rest IH]; intros k Hnull d Hd;
    [destruct Hd|].
  simpl in Hd. rewrite (Hnull x (or_introl eq_refl)) in Hd.
  destruct Hd as [<-|Hd]; [reflexivity|].
  apply (IH (S k)); [|exact Hd]. intros y Hy. apply Hnull. right. exact Hy.
Qed.

(** C3 as stated does not hold for the tables migration 004 produces.  Two
    rows of [react.dev] written by [save_document] come out of [upgrade]
    active and in two generations. *)
Lemma upgrade_counterexample :
  reachable sample_models [react_hooks; react_components]
  /\ Migration004.upgrade N.of_nat [react_hooks; react_components]
     = [Migration004.populate 0 react_hooks;
        Migration004.populate 1 react_components]
  /\ ~ one_active_generation
         (Migration004.upgrade N.of_nat [react_hooks; react_components])
  /\ ~ activation_invariant
         (Migration004.upgrade N.of_nat [react_hooks; react_components]).
Proof.
  assert (Hbad : ~ one_active_generation
            (Migration004.upgrade N.of_nat [react_hooks; react_components])).
  { intros Hone.
    specialize (Hone (Migration004.populate 0 react_hooks)
                     (Migration004.populate 1 react_components)).
    simpl in Hone.
    assert (E : Some 0%N = Some 1%N) by (apply Hone; auto).
    discriminate E. }
  split; [|split; [reflexivity | split; [exact Hbad|]]].
  - apply (reachable_save sample_models (world 11 2) [react_hooks]
             "react.dev" "https://react.dev/components" "/components"
             "# React Components" "hash-of-components" 0 _ INSERTED);
      [|reflexivity].
    apply (reachable_save sample_models (world 10 1) []
             "react.dev" "https://react.dev/hooks" "/hooks"
             "# React Hooks" "hash-of-hooks" 0 _ INSERTED);
      [constructor | reflexivity].
  - intros [Hone _]. exact (Hbad Hone).
Qed.


(** ** Matching content *)

Lemma prefix_app (pattern s : string) :
  prefix pattern s = true <-> exists rest, s = (pattern ++ rest)%string.
Proof.
  revert s. induction pattern as [|c pattern IH]; intros s.
  - destruct s; simpl; split; eauto.
  - destruct s as [|c' s]; simpl.
    + split; [discriminate | intros [rest H]; discriminate H].
    + destruct (ascii_dec c c') as [->|Hne].
      * rewrite IH. split; intros [rest H]; exists rest;
          [rewrite H; reflexivity | inversion H; reflexivity].
      * split; [discriminate | intros [rest H]; inversion H; congruence].
Qed.

Lemma contains_unfold (s pattern : string) :
  contains s pattern
  = if prefix pattern s then true
    else match s with
         | EmptyString => false
         | String _ s' => contains s' pattern
         end.
Proof. destruct s; reflexivity. Qed.

(** [contains] is the substring test. *)
Lemma contains_substring (s pattern : string) :
  contains s pattern = true
  <-> exists before rest, s = (before ++ pattern ++ rest)%string.
Proof.
  induction s as [|c s IH]; rewrite contains_unfold.
  - destruct (prefix pattern "") eqn:Hp.
    + apply prefix_app in Hp. destruct Hp as [rest H].
      split; [intros _; exists "", rest; exact H | reflexivity].
    + split; [discriminate|]. intros [before [rest H]].
      destruct before; simpl in H; [|discriminate].
      assert (Hp' : prefix pattern "" = true) by (apply prefix_app; eauto).
      congruence.
  - destruct (prefix pattern (String c s)) eqn:Hp.
    + apply prefix_app in Hp. destruct Hp as [rest H].
      split; [intros _; exists "", rest; exact H | reflexivity].
    + rewrite IH. split.
      * intros [before [rest H]]. exists (String c before), rest.
        simpl. rewrite H. reflexivity.
      * intros [before [rest H]]. destruct before as [|c0 before]; simpl in H.
        -- assert (Hp' : prefix pattern (String c s) = true)
             by (apply prefix_app; eauto).
           congruence.
        -- inversion H. eauto.
Qed.


Lemma icontains_substring (L : Locale) (content query : string) :
  icontains L content query = true
  <-> exists before rest,
        lower L content = (before ++ lower L query ++ rest)%string.
Proof. unfold icontains. apply contains_substring. Qed.

Lemma firstn_all_le {A : Type} (n : nat) (l : list A) :
  List.length l <= n -> firstn n l = l.
Proof. intros H. apply firstn_all2. exact H. Qed.

(** ** Search *)





(** C10. An empty-string domain is no domain: the search is the table-wide
    one, whose WHERE clause tests the content only, so rows of any domain
    can be returned. *)
Theorem search_documents_empty_domain (L : Locale) (documents : Documents)
    (query : string) (limit : Z) :
  search_documents L documents query (Some "") limit
  = search_documents L documents query None limit
  /\ search_documents L documents query (Some "") limit
     = (if (limit <? 0)%Z then Raise DBAPIError
        else Ok (firstn (Z.to_nat limit)
                   (filter (fun d => icontains L (Document.content d) query)
                      documents)))
  /\ search_documents L [react_hooks; vue_guide] "GUIDE" (Some "") 10
     = Ok [vue_guide]
  /\ search_documents L [react_hooks; vue_guide] "#" (Some "") 10
     = Ok [react_hooks; vue_guide].
Proof.
  split; [reflexivity|]. split; [|split; reflexivity].
  unfold search_documents, select_where, search_where. simpl.
  destruct (limit <? 0)%Z; reflexivity.
Qed.

(** ** Deleting a domain *)

Lemma filter_filter_comm {A : Type} (p q : A -> bool) (l : list A) :
  filter p (filter q l) = filter (fun x => p x && q x) l.
Proof.
  induction l as [|x l IH]; simpl; [reflexivity|].
  destruct (q x); simpl; [destruct (p x); simpl; rewrite IH; reflexivity|].
  rewrite andb_false_r. exact IH.
Qed.

Lemma filter_partition_length {A : Type} (p : A -> bool) (l : list A) :
  List.length (filter p l) + List.length (filter (fun x => negb (p x)) l)
  = List.length l.
Proof.
  induction l as [|x l IH]; simpl; [reflexivity|].
  destruct (p x); simpl; lia.
Qed.

(** C5. [delete_documents_by_domain] removes every row of the domain
    whatever its generation or activity, keeps the rows of every other
    domain as they were and in place, and returns the number of rows
    removed, which is zero (and the table is untouched) when the domain has
    no rows. *)
Theorem delete_documents_by_domain_result (documents : Documents)
    (domain : string) :
  let documents' := fst (delete_documents_by_domain documents domain) in
  let count := snd (delete_documents_by_domain documents domain) in
  (forall d, In d documents' <-> In d documents /\ Document.domain d <> domain)
  /\ (forall d, In d documents -> Document.domain d = domain -> ~ In d documents')
  /\ (forall other, other <> domain ->
        select_where (fun d => Document.domain d =? other) documents'
        = select_where (fun d => Document.domain d =? other) documents)
  /\ count + List.length documents' = List.length documents
  /\ count = List.length
               (select_where (fun d => Document.domain d =? domain) documents)
  /\ ((forall d, In d documents -> Document.domain d <> domain) ->
      documents' = documents /\ count = 0).
Proof.
  simpl.
  assert (Hin : forall d,
    In d (filter (fun d => negb (Document.domain d =? domain)) documents)
    <-> In d documents /\ Document.domain d <> domain).
  { intros d. rewrite filter_In, negb_true_iff, String.eqb_neq. reflexivity. }
  split; [exact Hin|]. split; [|split; [|split; [|split]]].
  - intros d _ E H. apply Hin in H. tauto.
  - intros other Hne. unfold select_where. rewrite filter_filter_comm.
    apply filter_ext. intros d.
    destruct (String.eqb_spec (Document.domain d) other) as [E|E];
      [|reflexivity].
    destruct (String.eqb_spec (Document.domain d) domain) as [E'|E'];
      [congruence | reflexivity].
  - apply filter_partition_length.
  - reflexivity.
  - intros Hno. split.
    + apply forallb_filter_id. apply forallb_forall. intros d Hd.
      apply negb_true_iff. apply String.eqb_neq. exact (Hno d Hd).
    + rewrite filter_none; [reflexivity|]. intros d Hd.
      apply String.eqb_neq. exact (Hno d Hd).
Qed.

(** ** The visibility flag *)

(** C6, as the code has it.  [save_document] knows no [generation_active]:
    a call that returns worked on a table without that column and leaves a
    table without it, so the flag of no row is touched, and the row an
    insert adds has no flag rather than a false one.  On any other table,
    the one migration 004 leaves among them, the call raises.  The flag
    appears with the migration, whose back-fill sets it to true in every
    row the upserts have written. *)
Theorem save_document_generation_active (M : Models) (W : World)
    (documents : Documents)
    (domain url path content content_hash : string) (depth : Z) :
  (forall documents' r,
     save_document M W documents domain url path content content_hash depth
     = Ok (documents', r) ->
     (forall d, In d documents \/ In d documents' ->
        Document.generation_active d = None)
     /\ (forall d d', In d documents -> In d' documents' ->
           Document.url d = Document.url d' ->
           Document.generation_active d' = Document.generation_active d)
     /\ (r = INSERTED ->
         exists doc, get_document_by_url documents' url = Ok (Some doc)
                     /\ (forall d, In d documents' <-> In d documents \/ d = doc)
                     /\ Document.generation_active doc = None)
     /\ (r <> INSERTED -> List.length documents' = List.length documents)
     /\ (forall gen_random_uuid d,
           In d (Migration004.upgrade gen_random_uuid documents') ->
           Document.generation_active d = Some true
           /\ row_at WithGenerations d = true))
  /\ (has_depth_column W documents = false ->
      save_document M W documents domain url path content content_hash depth
      = Raise DBAPIError)
  /\ (schema W = WithGenerations ->
      save_document M W documents domain url path content content_hash depth
      = Raise DBAPIError).
Proof.
  split; [|split].
  - intros documents' r H.
    pose proof (save_document_ok_schema _ _ _ _ _ _ _ _ _ _ _ H) as Hs.
    apply has_depth_column_spec in Hs. destruct Hs as [_ Hrows].
    pose proof (rows_at_inactive _ Hrows) as Hoff.
    pose proof (rows_at_inactive _ (save_document_rows_at _ _ _ _ _ _ _ _ _ _ _ H))
      as Hoff'.
    split; [intros d [Hd|Hd]; [apply Hoff | apply Hoff']; exact Hd|].
    split; [intros d d' Hd Hd' _; rewrite (Hoff d Hd), (Hoff' d' Hd');
            reflexivity|].
    split; [|split].
    + intros ->. apply save_document_cases in H.
      destruct H as [[Hsel [-> _]] | [[e [_ [_ [_ Hr]]]] | [e [_ [_ [_ Hr]]]]]];
        try discriminate Hr.
      exists (new_document M W domain url path content content_hash depth).
      split; [|split; [|reflexivity]].
      * unfold get_document_by_url.
        rewrite (select_url_app_new documents _ url);
          [reflexivity | reflexivity | exact Hsel].
      * intros d. rewrite in_app_iff. simpl. intuition congruence.
    + intros Hr. apply save_document_cases in H.
      destruct H as [[_ [_ ->]] | [[e [_ [_ [-> _]]]] | [e [_ [_ [-> _]]]]]].
      * congruence.
      * apply flush_length.
      * reflexivity.
    + intros gen d Hd. unfold Migration004.upgrade in Hd.
      assert (Hnull : forall x, In x documents' ->
                Document.generation_id x = None).
      { intros x Hx. apply (row_at_depth x).
        eapply save_document_rows_at; eassumption. }
      split.
      * apply (upgrade_from_activates gen 0 documents'); assumption.
      * apply (upgrade_from_rows_at gen 0 documents'); assumption.
  - intros Hs. unfold save_document. rewrite Hs. reflexivity.
  - apply save_document_at_004.
Qed.

(** C6 as stated does not hold: no row is ever inserted with
    [generation_active = false].  The first upsert into the empty table
    returns [INSERTED] and its row has no [generation_active]; migration
    004 then gives the row the flag, and sets it to true; and on the table
    the migration leaves, the upsert of another url raises and inserts
    nothing. *)
Lemma save_document_generation_active_counterexample :
  save_document sample_models (world 10 1) []
    "react.dev" "https://react.dev/hooks" "/hooks"
    "# React Hooks" "hash-of-hooks" 0
  = Ok ([react_hooks], INSERTED)
  /\ Document.generation_active react_hooks = None
  /\ map Document.generation_active
       (Migration004.upgrade N.of_nat [react_hooks])
     = [Some true]
  /\ save_document sample_models (world_004 11 2)
       (Migration004.upgrade N.of_nat [react_hooks])
       "react.dev" "https://react.dev/components" "/components"
       "# React Components" "hash-of-components" 0
     = Raise DBAPIError.
Proof. repeat split; reflexivity. Qed.

(** ** One row per url *)



(** ** Reading by url *)



(** ** Arguments an upsert does not use *)

(** C9. When a row is stored under the url, [save_document] does not look
    at its [domain] and [path] arguments: any other values give the same
    result, and the [domain] and [path] of every row, that row included,
    stay as stored. *)
Theorem save_document_ignores_domain_path (M : Models) (W : World)
    (documents : Documents)
    (domain url path content content_hash : string) (depth : Z)
    (existing : Document.t) :
  In existing documents -> Document.url existing = url ->
  (forall domain' path',
     save_document M W documents domain' url path' content content_hash depth
     = save_document M W documents domain url path content content_hash depth)
  /\ (forall documents' r,
        save_document M W documents domain url path content content_hash depth
        = Ok (documents', r) ->
        map Document.domain documents' = map Document.domain documents
        /\ map Document.path documents' = map Document.path documents
        /\ exists existing',
             get_document_by_url documents' url = Ok (Some existing')
             /\ Document.domain existing' = Document.domain existing
             /\ Document.path existing' = Document.path existing).
Proof.
  intros Hin Hurl. split.
  - intros domain' path'. unfold save_document.
    destruct (has_depth_column W documents); [|reflexivity].
    destruct (select_where (fun d => Document.url d =? url) documents)
      as [|e [|other more]] eqn:Hsel; simpl; try reflexivity.
    exfalso. exact (select_url_absent_inv _ _ Hsel existing Hin Hurl).
  - intros documents' r H. apply save_document_cases in H.
    destruct H as [[Hsel _] | [[e [Hsel [_ [-> _]]]] | [e [Hsel [_ [-> _]]]]]].
    + exfalso. exact (select_url_absent_inv _ _ Hsel existing Hin Hurl).
    + pose proof (select_singleton_eq _ _ _ _ Hsel Hin Hurl) as He. subst e.
      split; [apply flush_column; reflexivity|].
      split; [apply flush_column; reflexivity|].
      exists (assign M W content content_hash depth existing).
      split; [|split; reflexivity].
      unfold get_document_by_url. rewrite flush_select_url; [reflexivity|].
      exact Hsel.
    + pose proof (select_singleton_eq _ _ _ _ Hsel Hin Hurl) as He. subst e.
      split; [reflexivity|]. split; [reflexivity|].
      exists existing. split; [|split; reflexivity].
      unfold get_document_by_url. rewrite Hsel. reflexivity.
Qed.

Lemma save_document_ignores_domain_path_witness :
  In example_doc [example_doc]
  /\ save_document sample_models (world 100 2) [example_doc]
       "elsewhere.org" "https://example.com/doc" "/moved"
       "# Version 2 with changes" "hash-of-version-2" 0
     = Ok ([assign sample_models (world 100 2)
              "# Version 2 with changes" "hash-of-version-2" 0 example_doc],
           UPDATED)
  /\ Document.domain
       (assign sample_models (world 100 2)
          "# Version 2 with changes" "hash-of-version-2" 0 example_doc)
     = "example.com"
  /\ Document.path
       (assign sample_models (world 100 2)
          "# Version 2 with changes" "hash-of-version-2" 0 example_doc)
     = "/doc".
Proof.
  assert (Hin : In example_doc [example_doc]) by (left; reflexivity).
  split; [exact Hin|]. split; [|split; reflexivity].
  rewrite (proj1 (save_document_ignores_domain_path sample_models (world 100 2)
                    [example_doc] "example.com" "https://example.com/doc" "/doc"
                    "# Version 2 with changes" "hash-of-version-2" 0 example_doc
                    Hin eq_refl) "elsewhere.org" "/moved").
  reflexivity.
Defined.

(** * Further properties of the document store *)

(** ** Delete, then read or write again *)




(** X2. Deleting a domain a second time removes nothing: the count is 0 and
    the table is the one the first delete left. *)
Theorem delete_twice (documents : Documents) (domain : string) :
  delete_documents_by_domain
    (fst (delete_documents_by_domain documents domain)) domain
  = (fst (delete_documents_by_domain documents domain), 0).
Proof.
  unfold delete_documents_by_domain. simpl. f_equal.
  - rewrite filter_filter_comm. apply filter_ext. intros d.
    apply andb_diag.
  - rewrite filter_filter_comm. rewrite filter_none; [reflexivity|].
    intros d _. destruct (Document.domain d =? domain); reflexivity.
Qed.



(** ** Limits and terms of a document search *)





(** X6. A document just inserted is found by a table-wide search for any
    term its content contains, case ignored, once the limit does not cut. *)
Theorem save_then_search (L : Locale) (M : Models) (W : World)
    (documents : Documents)
    (domain url path content content_hash : string) (depth : Z)
    (documents' : Documents) (query : string) (limit : Z) :
  save_document M W documents domain url path content content_hash depth
  = Ok (documents', INSERTED) ->
  icontains L content query = true ->
  (Z.of_nat (List.length documents') <= limit)%Z ->
  exists rows,
    search_documents L documents' query None limit = Ok rows
    /\ In (new_document M W domain url path content content_hash depth) rows.
Proof.
  intros H Hc Hlimit. apply save_document_cases in H.
  destruct H as [[_ [-> _]] | [[e [_ [_ [_ H]]]] | [e [_ [_ [_ H]]]]]];
    try discriminate H.
  eexists. split.
  - unfold search_documents. destruct (Z.ltb_spec limit 0); [lia | reflexivity].
  - rewrite firstn_all_le.
    + unfold select_where. apply filter_In. split.
      * apply in_or_app. right. left. reflexivity.
      * unfold search_where. simpl. exact Hc.
    + pose proof (filter_length_le (search_where L query None)
                    (documents
                     ++ [new_document M W domain url path content content_hash
                           depth])).
      unfold select_where. lia.
Qed.

Lemma save_then_search_witness :
  exists rows,
    search_documents latin_locale [react_hooks; cafe_doc] "café" None 10
    = Ok rows
    /\ In cafe_doc rows.
Proof.
  apply (save_then_search latin_locale sample_models (world 13 4) [react_hooks]
           "cafe.example" "https://cafe.example/menu" "/menu"
           "CAFÉ au lait" "hash-of-menu" 0 [react_hooks; cafe_doc] "café" 10).
  - reflexivity.
  - reflexivity.
  - simpl. lia.
Defined.

(** ** The back-fill of migration 004 *)

Lemma upgrade_from_column {A : Type} (column : Document.t -> A)
    (gen_random_uuid : nat -> UUID) (k : nat) (documents : Documents) :
  (forall g d, column (Migration004.populate g d) = column d) ->
  map column (Migration004.upgrade_from gen_random_uuid k documents)
  = map column documents.
Proof.
  intros Hc. revert k. induction documents as [|x rest IH]; intros k;
    [reflexivity|].
  simpl. destruct (Document.generation_id x); simpl; rewrite IH;
    [reflexivity | rewrite Hc; reflexivity].
Qed.

Lemma upgrade_from_generations (gen_random_uuid : nat -> UUID) (k : nat)
    (documents : Documents) :
  (forall d, In d documents -> Document.generation_id d = None) ->
  map Document.generation_id
    (Migration004.upgrade_from gen_random_uuid k documents)
  = map (fun i => Some (gen_random_uuid i)) (seq k (List.length documents)).
Proof.
  revert k. induction documents as [|x rest IH]; intros k Hnull;
    [reflexivity|].
  simpl. rewrite (Hnull x (or_introl eq_refl)). simpl. f_equal.
  apply IH. intros d Hd. apply Hnull. right. exact Hd.
Qed.

Lemma upgrade_from_kept (gen_random_uuid : nat -> UUID) (k : nat)
    (documents : Documents) :
  (forall d, In d documents -> Document.generation_id d <> None) ->
  Migration004.upgrade_from gen_random_uuid k documents = documents.
Proof.
  revert k. induction documents as [|x rest IH]; intros k Hset;
    [reflexivity|].
  simpl. destruct (Document.generation_id x) eqn:Hg.
  - f_equal. apply IH. intros d Hd. apply Hset. right. exact Hd.
  - exfalso. apply (Hset x (or_introl eq_refl)). exact Hg.
Qed.

Lemma upgrade_from_keeps (gen_random_uuid : nat -> UUID) (k : nat)
    (documents : Documents) (d : Document.t) :
  In d documents -> Document.generation_id d <> None ->
  In d (Migration004.upgrade_from gen_random_uuid k documents).
Proof.
  revert k. induction documents as [|x rest IH]; intros k Hin Hset;
    [destruct Hin|].
  simpl. destruct Hin as [->|Hin].
  - destruct (Document.generation_id d); [left; reflexivity | congruence].
  - destruct (Document.generation_id x); right; apply IH; assumption.
Qed.

Lemma NoDup_map_injective {A B : Type} (f : A -> B) (l : list A) :
  (forall x y, f x = f y -> x = y) -> NoDup l -> NoDup (map f l).
Proof.
  intros Hinj. induction 1 as [|x l Hnot Hnd IH]; simpl; constructor.
  - intros Hin. apply in_map_iff in Hin. destruct Hin as [y [E Hy]].
    apply Hinj in E. subst y. exact (Hnot Hy).
  - exact IH.
Qed.

(** X9. The back-fill of migration 004 keeps every row and its url,
    domain, content and hash.  On a table written before the migration
    (no [generation_id] yet) it makes every row active, so the
    [documents_active] view shows the whole table, and it gives the rows
    pairwise different generations when the drawn identifiers differ.
    Rows that already have a generation are not touched, whatever the
    other rows of the table are. *)
Theorem upgrade_backfill (gen_random_uuid : nat -> UUID)
    (documents : Documents) :
  (List.length (Migration004.upgrade gen_random_uuid documents)
   = List.length documents
   /\ map Document.url (Migration004.upgrade gen_random_uuid documents)
      = map Document.url documents
   /\ map Document.domain (Migration004.upgrade gen_random_uuid documents)
      = map Document.domain documents
   /\ map Document.content (Migration004.upgrade gen_random_uuid documents)
      = map Document.content documents
   /\ map Document.content_hash (Migration004.upgrade gen_random_uuid documents)
      = map Document.content_hash documents)
  /\ ((forall d, In d documents -> Document.generation_id d = None) ->
      documents_active (Migration004.upgrade gen_random_uuid documents)
      = Migration004.upgrade gen_random_uuid documents
      /\ ((forall i j, gen_random_uuid i = gen_random_uuid j -> i = j) ->
          NoDup (map Document.generation_id
                   (Migration004.upgrade gen_random_uuid documents))))
  /\ ((forall d, In d documents -> Document.generation_id d <> None) ->
      Migration004.upgrade gen_random_uuid documents = documents)
  /\ (forall d, In d documents -> Document.generation_id d <> None ->
        In d (Migration004.upgrade gen_random_uuid documents)).
Proof.
  unfold Migration004.upgrade. split; [|split; [|split]].
  - split.
    { rewrite <- (length_map Document.url).
      rewrite upgrade_from_column by reflexivity. apply length_map. }
    repeat split; apply upgrade_from_column; reflexivity.
  - intros Hnull. split.
    + unfold documents_active, select_where. apply forallb_filter_id.
      apply forallb_forall. intros d Hd.
      rewrite (upgrade_from_activates gen_random_uuid 0 documents Hnull d Hd).
      reflexivity.
    + intros Hinj. rewrite upgrade_from_generations by exact Hnull.
      apply NoDup_map_injective; [|apply seq_NoDup].
      intros i j E. apply Hinj. congruence.
  - apply upgrade_from_kept.
  - apply upgrade_from_keeps.
Qed.

(** * The query log *)

(** ** [save_query], branch by branch *)

Lemma insert_query_ok (queries queries' : Queries) (record : Query.t) :
  insert_query queries record = Ok queries' <->
  queries' = queries ++ [record]
  /\ ~ In (Query.id record) (map Query.id queries)
  /\ (forall parent, Query.parent_id record = Some parent ->
        In parent (map Query.id queries)).
Proof.
  unfold insert_query.
  destruct (existsb (fun q => N.eqb (Query.id q) (Query.id record)) queries)
    eqn:Hid.
  - apply existsb_key in Hid. split; [discriminate | tauto].
  - apply existsb_key_false in Hid.
    destruct (Query.parent_id record) as [parent|].
    + destruct (existsb (fun q => N.eqb (Query.id q) parent) queries) eqn:Hp.
      * apply existsb_key in Hp. split.
        -- intros H. inversion H. repeat split; try assumption.
           intros p E. inversion E; subst. exact Hp.
        -- intros [-> _]. reflexivity.
      * apply existsb_key_false in Hp. split; [discriminate|].
        intros [_ [_ H]]. exfalso. apply Hp. apply H. reflexivity.
    + split.
      * intros H. inversion H. repeat split; try assumption. discriminate.
      * intros [-> _]. reflexivity.
Qed.

Lemma decode_messages_some (messages : option string) (decoded : option string) :
  decode_messages messages = Some decoded ->
  decoded = match messages with
            | Some b => if b =? EmptyString then None else Some b
            | None => None
            end.
Proof.
  destruct messages as [[|c b]|]; simpl.
  - intros H. inversion H. reflexivity.
  - unfold decode_utf8. destruct (utf8_valid (String c b)); [|discriminate].
    intros H. inversion H. reflexivity.
  - intros H. inversion H. reflexivity.
Qed.

Lemma decode_messages_none (messages : option string) :
  decode_messages messages = None <->
  exists b, messages = Some b /\ b <> EmptyString /\ utf8_valid b = false.
Proof.
  destruct messages as [[|c b]|]; simpl.
  - split; [discriminate|]. intros [b [E [Hne _]]]. inversion E. congruence.
  - unfold decode_utf8. destruct (utf8_valid (String c b)) eqn:Hv.
    + split; [discriminate|]. intros [b' [E [_ Hv']]].
      inversion E; subst. congruence.
    + split; [|reflexivity]. intros _. exists (String c b).
      repeat split; [discriminate | exact Hv].
  - split; [discriminate|]. intros [b [E _]]. discriminate E.
Qed.

Section SaveQuery.

Variables (W : World) (queries : Queries) (query output : string).
Variables (messages : option string) (language library version : option string).
Variables (parent_id : option UUID) (depth : Z).

Lemma save_query_returns (queries' : Queries) (id : UUID) :
  save_query W queries query output messages language library version
    parent_id depth = Returns (queries', id) ->
  exists record,
    queries' = queries ++ [record]
    /\ id = gen_random_uuid W
    /\ ~ In id (map Query.id queries)
    /\ (forall parent, parent_id = Some parent ->
          In parent (map Query.id queries))
    /\ Query.id record = id
    /\ Query.query record = query
    /\ Query.output record = output
    /\ Query.language record = language
    /\ Query.library record = library
    /\ Query.version record = version
    /\ Query.parent_id record = parent_id
    /\ Query.depth record = depth
    /\ Query.inserted_at record = server_now W
    /\ Query.messages record
       = (match messages with
          | Some b => if b =? EmptyString then None else Some b
          | None => None
          end)
    /\ fits_integer depth = true.
Proof.
  unfold save_query. destruct (decode_messages messages) as [decoded|] eqn:Hd;
    [|discriminate].
  apply decode_messages_some in Hd.
  destruct (fits_integer depth) eqn:Hfit; [|discriminate].
  match goal with
  | |- context [insert_query queries ?r] =>
      destruct (insert_query queries r) as [qs|e] eqn:Hins; [|discriminate];
      intros Hret; exists r
  end.
  inversion Hret; subst queries' id. clear Hret.
  apply insert_query_ok in Hins. simpl in Hins.
  destruct Hins as [-> [Hfresh Hparent]].
  simpl. repeat split; try reflexivity; try assumption.
Qed.

End SaveQuery.

Lemma unique_query_ids_app (queries : Queries) (record : Query.t) :
  unique_query_ids queries ->
  ~ In (Query.id record) (map Query.id queries) ->
  unique_query_ids (queries ++ [record]).
Proof.
  unfold unique_query_ids. intros Hnd Hfresh. rewrite map_app. simpl.
  apply NoDup_app; [exact Hnd | repeat constructor; intros [] |].
  intros k Hk [<-|[]]. exact (Hfresh Hk).
Qed.

Lemma get_query_present (queries : Queries) (q : Query.t) :
  unique_query_ids queries -> In q queries ->
  get_query queries (Query.id q) = Ok (Some q).
Proof.
  intros Hu Hin. unfold get_query.
  rewrite (filter_key_unique Query.id queries q Hu Hin). reflexivity.
Qed.

(** X10. A query saved by [save_query] is read back by [get_query] under
    the returned id with the text, output, language, library, version,
    parent and depth that were passed, and every query stored before is
    still read back unchanged. *)
Theorem save_query_get_query (W : World) (queries : Queries)
    (query output : string) (messages : option string)
    (language library version : option string) (parent_id : option UUID)
    (depth : Z) (queries' : Queries) (id : UUID) :
  unique_query_ids queries ->
  save_query W queries query output messages language library version
    parent_id depth = Returns (queries', id) ->
  unique_query_ids queries'
  /\ (exists record,
        get_query queries' id = Ok (Some record)
        /\ Query.query record = query
        /\ Query.output record = output
        /\ Query.language record = language
        /\ Query.library record = library
        /\ Query.version record = version
        /\ Query.parent_id record = parent_id
        /\ Query.depth record = depth)
  /\ (forall earlier, In earlier queries ->
        get_query queries' (Query.id earlier) = Ok (Some earlier)).
Proof.
  intros Hu H. apply save_query_returns in H.
  destruct H as [record [-> [_ [Hfresh [_ [Hid [Hq [Ho [Hl [Hlib [Hv [Hp [Hd _]]]]]]]]]]]]].
  rewrite <- Hid in Hfresh.
  pose proof (unique_query_ids_app queries record Hu Hfresh) as Hu'.
  split; [exact Hu'|]. split.
  - exists record. rewrite <- Hid. split.
    + apply get_query_present; [exact Hu'|].
      apply in_or_app. right. left. reflexivity.
    + repeat split; assumption.
  - intros earlier Hin. apply get_query_present; [exact Hu'|].
    apply in_or_app. left. exact Hin.
Qed.

Lemma save_query_get_query_witness :
  unique_query_ids []
  /\ exists record,
       get_query
         (match save_query (world 5 1) [] "How do I use FastAPI?"
                  "# FastAPI Usage" None None (Some "fastapi") None None 0 with
          | Returns (queries', _) => queries'
          | Raises _ => []
          end) 1
       = Ok (Some record)
       /\ Query.query record = "How do I use FastAPI?"
       /\ Query.library record = Some "fastapi".
Proof.
  assert (Hu : unique_query_ids []) by constructor.
  split; [exact Hu|].
  destruct (save_query_get_query (world 5 1) [] "How do I use FastAPI?"
              "# FastAPI Usage" None None (Some "fastapi") None None 0
              _ 1 Hu eq_refl)
    as [_ [[record [Hget [Hq [_ [_ [Hlib _]]]]]] _]].
  exists record. split; [exact Hget|]. split; assumption.
Defined.

Lemma utf8_ascii (s : string) (need lo hi : nat) :
  need = 0 ->
  (forall c, In c (list_ascii_of_string s) -> byte_in 0 127 c = true) ->
  utf8_from need lo hi s = true.
Proof.
  intros ->. revert lo hi. induction s as [|c s IH]; intros lo hi Hall;
    [reflexivity|].
  simpl. rewrite (Hall c (or_introl eq_refl)).
  apply IH. intros c' Hc'. apply Hall. right. exact Hc'.
Qed.

(** X11. What [save_query] stores as [messages]: nothing (NULL) when the
    argument is [None] or empty bytes, the bytes as text otherwise; bytes
    that are not well-formed UTF-8 raise [UnicodeDecodeError] before the
    table is touched, and bytes below 128 only are always accepted. *)
Theorem save_query_messages (W : World) (queries : Queries)
    (query output : string) (messages : option string)
    (language library version : option string) (parent_id : option UUID)
    (depth : Z) :
  (forall b, messages = Some b -> b <> EmptyString -> utf8_valid b = false ->
     save_query W queries query output messages language library version
       parent_id depth = Raises UnicodeDecodeError)
  /\ (forall queries' id,
        save_query W queries query output messages language library version
          parent_id depth = Returns (queries', id) ->
        exists record,
          queries' = queries ++ [record]
          /\ Query.messages record
             = match messages with
               | Some b => if b =? EmptyString then None else Some b
               | None => None
               end)
  /\ (forall b,
        (forall c, In c (list_ascii_of_string b) -> byte_in 0 127 c = true) ->
        decode_utf8 b = Some b).
Proof.
  split; [|split].
  - intros b Hm Hne Hv. unfold save_query.
    assert (Hd : decode_messages messages = None).
    { apply decode_messages_none. exists b. auto. }
    rewrite Hd. reflexivity.
  - intros queries' id H. apply save_query_returns in H.
    destruct H as [record [E [_ [_ [_ [_ [_ [_ [_ [_ [_ [_ [_ [_ [Hm _]]]]]]]]]]]]]]].
    exists record. split; [exact E | exact Hm].
  - intros b Hall. unfold decode_utf8, utf8_valid.
    rewrite utf8_ascii; auto.
Qed.


(** X13. [get_query] returns [None], not an exception, for an id no stored
    query has, and the stored query for an id that one has. *)
Theorem get_query_result (queries : Queries) (id : UUID) :
  unique_query_ids queries ->
  (~ In id (map Query.id queries) -> get_query queries id = Ok None)
  /\ (forall q, In q queries -> Query.id q = id ->
        get_query queries id = Ok (Some q)).
Proof.
  intros Hu. split.
  - intros Hno. unfold get_query. rewrite filter_key_absent by exact Hno.
    reflexivity.
  - intros q Hin <-. apply get_query_present; assumption.
Qed.

Lemma get_query_result_witness :
  unique_query_ids [] /\ get_query [] 0 = Ok None.
Proof.
  assert (Hu : unique_query_ids []) by constructor.
  split; [exact Hu|].
  apply (proj1 (get_query_result [] 0 Hu)). intros [].
Defined.

(** ** Ratings *)

Lemma in_range_1_5_spec (score : Z) :
  in_range_1_5 score = true <-> (1 <= score <= 5)%Z.
Proof. unfold in_range_1_5. rewrite andb_true_iff. lia. Qed.

Lemma save_rating_ok (W : World) (queries : Queries) (ratings ratings' : Ratings)
    (rating : Rating.t) :
  save_rating W queries ratings rating = Ok ratings' ->
  ~ In (gen_random_uuid W) (map RatingModel.id ratings)
  /\ In (Rating.query_id rating) (map Query.id queries)
  /\ (1 <= Rating.correctness rating <= 5)%Z
  /\ (1 <= Rating.relevance rating <= 5)%Z
  /\ (1 <= Rating.usefulness rating <= 5)%Z
  /\ exists record,
       ratings' = ratings ++ [record]
       /\ RatingModel.id record = gen_random_uuid W
       /\ RatingModel.query_id record = Rating.query_id rating
       /\ RatingModel.correctness record = Rating.correctness rating
       /\ RatingModel.relevance record = Rating.relevance rating
       /\ RatingModel.usefulness record = Rating.usefulness rating
       /\ RatingModel.reasoning record = Rating.reasoning rating.
Proof.
  unfold save_rating.
  destruct (existsb (fun r => N.eqb (RatingModel.id r) (gen_random_uuid W))
              ratings) eqn:Hid; [discriminate|].
  destruct (existsb (fun q => N.eqb (Query.id q) (Rating.query_id rating))
              queries) eqn:Hq; simpl; [|discriminate].
  destruct (in_range_1_5 (Rating.correctness rating)) eqn:Hc; simpl;
    [|discriminate].
  destruct (in_range_1_5 (Rating.relevance rating)) eqn:Hr; simpl;
    [|discriminate].
  destruct (in_range_1_5 (Rating.usefulness rating)) eqn:Hus; simpl;
    [|discriminate].
  intros H. inversion H. clear H.
  apply existsb_key_false in Hid. apply existsb_key in Hq.
  apply in_range_1_5_spec in Hc, Hr, Hus.
  repeat split; try assumption; try lia.
  eexists. repeat split.
Qed.



(** ** Referential integrity of the log *)

Lemma parents_precede_app (earlier : list UUID) (queries : Queries)
    (record : Query.t) :
  parents_precede earlier queries ->
  (forall parent, Query.parent_id record = Some parent ->
     In parent (earlier ++ map Query.id queries)) ->
  parents_precede earlier (queries ++ [record]).
Proof.
  revert earlier. induction queries as [|q rest IH]; intros earlier Hpre Hparent.
  - simpl. split; [|exact I].
    destruct (Query.parent_id record) as [parent|]; [|exact I].
    specialize (Hparent parent eq_refl). simpl in Hparent.
    rewrite app_nil_r in Hparent. exact Hparent.
  - simpl in *. destruct Hpre as [Hq Hrest]. split; [exact Hq|].
    apply IH; [exact Hrest|]. intros parent E.
    rewrite <- app_assoc. simpl. apply Hparent. exact E.
Qed.

Lemma ratings_valid_more_queries (queries : Queries) (record : Query.t)
    (ratings : Ratings) :
  ratings_valid queries ratings -> ratings_valid (queries ++ [record]) ratings.
Proof.
  intros H r Hr. destruct (H r Hr) as [Hq Hscores]. split; [|exact Hscores].
  rewrite map_app. apply in_or_app. left. exact Hq.
Qed.

(** X15. In every state [save_query] and [save_rating] build from empty
    tables: query ids are unique; every [parent_id] names a query stored
    earlier in the table, so no query is its own parent and parent chains
    cannot loop; every rating belongs to a stored query and has its three
    scores within 1..5; rating ids are unique. *)
Theorem log_invariants (queries : Queries) (ratings : Ratings) :
  log_reachable queries ratings ->
  unique_query_ids queries
  /\ parents_precede [] queries
  /\ (forall q, In q queries -> Query.parent_id q <> Some (Query.id q))
  /\ ratings_valid queries ratings
  /\ NoDup (map RatingModel.id ratings).
Proof.
  induction 1 as [| W queries ratings query output messages language library
                    version parent_id depth queries' id _ IH H
                  | W queries ratings rating ratings' _ IH H].
  - split; [constructor|]. split; [exact I|]. split; [intros q []|].
    split; [intros r [] | constructor].
  - destruct IH as [Hu [Hpre [Hself [Hval Hrid]]]].
    apply save_query_returns in H.
    destruct H as [record [-> [-> [Hfresh [Hparent [Hid [_ [_ [_ [_ [_ [Hp _]]]]]]]]]]]].
    rewrite <- Hid in Hfresh.
    split; [apply unique_query_ids_app; assumption|].
    split; [apply parents_precede_app; [exact Hpre|]|].
    { intros parent E. simpl. apply Hparent. congruence. }
    split; [|split; [apply ratings_valid_more_queries; exact Hval | exact Hrid]].
    intros q Hq. apply in_app_or in Hq. destruct Hq as [Hq|[<-|[]]].
    + apply Hself. exact Hq.
    + rewrite Hp. intros E. apply Hfresh. apply Hparent. exact E.
  - destruct IH as [Hu [Hpre [Hself [Hval Hrid]]]].
    apply save_rating_ok in H.
    destruct H as [Hfresh [Hq [Hc [Hr [Hus [record [-> [Hid [Hqid [Ec [Er [Eu _]]]]]]]]]]]].
    split; [exact Hu|]. split; [exact Hpre|]. split; [exact Hself|]. split.
    + intros r Hin. apply in_app_or in Hin. destruct Hin as [Hin|[<-|[]]].
      * apply Hval. exact Hin.
      * rewrite Hqid, Ec, Er, Eu. auto.
    + rewrite map_app. simpl.
      apply NoDup_app; [exact Hrid | repeat constructor; intros [] |].
      intros k Hk [<-|[]]. apply Hfresh. rewrite <- Hid. exact Hk.
Qed.

Lemma log_invariants_witness :
  exists queries ratings,
    log_reachable queries ratings
    /\ List.length queries = 2 /\ List.length ratings = 1
    /\ unique_query_ids queries
    /\ ratings_valid queries ratings.
Proof.
  assert (H1 : log_reachable
                 [Query.mk 1 "Main question?" None None None "Main answer"
                    None None 0 5 5] []).
  { apply (log_save_query (world 5 1) [] [] "Main question?" "Main answer"
             None None None None None 0 _ 1 log_empty). reflexivity. }
  assert (H2 : log_reachable
                 [Query.mk 1 "Main question?" None None None "Main answer"
                    None None 0 5 5;
                  Query.mk 2 "Sub question?" None None None "Sub answer"
                    None (Some 1%N) 1 6 6] []).
  { apply (log_save_query (world 6 2) _ [] "Sub question?" "Sub answer"
             None None None None (Some 1%N) 1 _ 2 H1). reflexivity. }
  pose proof (log_save_rating (world 7 3) _ []
                (Rating.mk 2 5 4 5 None None None None) _ H2 eq_refl) as H3.
  eexists. eexists. split; [exact H3|].
  split; [reflexivity|]. split; [reflexivity|].
  pose proof (log_invariants _ _ H3) as [Hu [_ [_ [Hval _]]]].
  split; assumption.
Defined.

(** * Searching the query log *)

(** ** How [LIKE] scans *)

Lemma like_percent_scan (pattern : string) (flag : bool) (text : string) :
  (fix scan (at_char : bool) (t : string) {struct t} : bool :=
     (at_char && like pattern t)
     || match t with
        | EmptyString => false
        | String _ t' =>
            scan (match t' with
                  | EmptyString => true
                  | String c' _ => negb (is_continuation c')
                  end) t'
        end) flag text
  = like_scan (like pattern) flag text.
Proof.
  revert flag. induction text as [|c text IH]; intros flag.
  - reflexivity.
  - simpl. f_equal. rewrite IH. reflexivity.
Qed.

Lemma like_percent (pattern text : string) :
  like (String "%" pattern) text = like_scan (like pattern) true text.
Proof. rewrite <- like_percent_scan. reflexivity. Qed.

Lemma like_scan_cons (f : string -> bool) (flag : bool) (c : ascii)
    (t : string) :
  like_scan f flag (String c t)
  = (flag && f (String c t)) || like_scan f (at_char_start t) t.
Proof. reflexivity. Qed.

Lemma like_scan_ext (f g : string -> bool) (flag : bool) (t : string) :
  (forall u, f u = g u) -> like_scan f flag t = like_scan g flag t.
Proof.
  intros H. revert flag. induction t as [|c t IH]; intros flag; simpl.
  - rewrite H. reflexivity.
  - rewrite H, IH. reflexivity.
Qed.

Lemma like_scan_end (f : string -> bool) (t : string) :
  f EmptyString = true ->
  like_scan f (at_char_start t) t = true /\ like_scan f true t = true.
Proof.
  intros H. induction t as [|c t [IH _]]; simpl.
  - rewrite H. auto.
  - rewrite IH. split; apply orb_true_r.
Qed.

Lemma like_any (text : string) : like "%" text = true.
Proof. rewrite like_percent. apply like_scan_end. reflexivity. Qed.

Lemma wildcard_free_cons (c : ascii) (term : string) :
  wildcard_free (String c term) = true ->
  Ascii.eqb c "%" = false /\ Ascii.eqb c "_" = false
  /\ Ascii.eqb c "\" = false /\ wildcard_free term = true.
Proof.
  simpl. rewrite !andb_true_iff, !negb_true_iff. tauto.
Qed.

Lemma like_plain_byte (c : ascii) (pattern text : string) :
  Ascii.eqb c "%" = false -> Ascii.eqb c "_" = false ->
  Ascii.eqb c "\" = false ->
  like (String c pattern) text
  = match text with
    | EmptyString => false
    | String c0 text' => Ascii.eqb c c0 && like pattern text'
    end.
Proof.
  intros H1 H2 H3. destruct text as [|c0 text']; simpl; rewrite H1, H2, H3;
    reflexivity.
Qed.

(** A term without special bytes, followed by [%], is a prefix test. *)
Lemma like_plain_prefix (term text : string) :
  wildcard_free term = true ->
  like (term ++ "%")%string text = prefix term text.
Proof.
  revert text. induction term as [|c term IH]; intros text Hfree.
  - simpl append. rewrite like_any. destruct text; reflexivity.
  - apply wildcard_free_cons in Hfree. destruct Hfree as [H1 [H2 [H3 Hfree]]].
    simpl append. rewrite like_plain_byte by assumption.
    destruct text as [|c0 text']; [reflexivity|]. simpl.
    destruct (ascii_dec c c0) as [->|Hne].
    + rewrite Ascii.eqb_refl. simpl. apply IH. exact Hfree.
    + apply Ascii.eqb_neq in Hne. rewrite Hne. reflexivity.
Qed.

Lemma prefix_at_char_start (term text : string) :
  at_char_start term = true -> term <> EmptyString ->
  prefix term text = true -> at_char_start text = true.
Proof.
  destruct term as [|c term]; [congruence|]. intros Hc _.
  destruct text as [|c0 text]; [reflexivity|]. simpl.
  destruct (ascii_dec c c0) as [->|]; [|discriminate]. intros _. exact Hc.
Qed.

(** Scanning for a prefix at character starts finds what [contains] finds,
    provided the term itself starts a character. *)
Lemma like_scan_contains (term text : string) :
  at_char_start term = true ->
  like_scan (prefix term) (at_char_start text) text = contains text term
  /\ like_scan (prefix term) true text = contains text term.
Proof.
  intros Hstart. destruct term as [|c term].
  - assert (Hall : forall u, prefix "" u = true) by (intros [|? ?]; reflexivity).
    rewrite contains_unfold, Hall.
    apply (like_scan_end (prefix "") text (Hall EmptyString)).
  - induction text as [|c0 text [IH _]].
    + split; reflexivity.
    + rewrite contains_unfold.
      assert (Hrest : like_scan (prefix (String c term)) (at_char_start text) text
                      = contains text (String c term)) by exact IH.
      split.
      * rewrite like_scan_cons, Hrest.
        destruct (prefix (String c term) (String c0 text)) eqn:Hp.
        -- rewrite (prefix_at_char_start (String c term) (String c0 text));
             [reflexivity | exact Hstart | discriminate | exact Hp].
        -- rewrite andb_false_r. reflexivity.
      * rewrite like_scan_cons, Hrest.
        destruct (prefix (String c term) (String c0 text)); reflexivity.
Qed.

(** ** [lower] and the special bytes *)

Lemma string_app_assoc (a b c : string) :
  ((a ++ b) ++ c)%string = (a ++ (b ++ c))%string.
Proof. induction a as [|x a IH]; simpl; [reflexivity | rewrite IH; reflexivity]. Qed.

Lemma lower_char_cons (L : Locale) (lead : ascii) (rest : string) :
  exists c r, lower_char L lead rest = String c r.
Proof.
  unfold lower_char. destruct (byte_in 0 127 lead); [eauto|].
  destruct (towlower L lead rest) as [c r]. eauto.
Qed.

(** Text that is not empty stays so. *)
Lemma lower_tail_cons (L : Locale) (lead : ascii) (rest s : string) :
  exists c r, lower_tail L lead rest s = String c r.
Proof.
  revert lead rest. induction s as [|x s IH]; intros lead rest; simpl.
  - apply lower_char_cons.
  - destruct (is_continuation x); [apply IH|].
    destruct (lower_char_cons L lead rest) as [c [r ->]]. simpl. eauto.
Qed.

Lemma lower_tail_percent (L : Locale) (lead : ascii) (rest s : string) :
  lower_tail L lead rest (s ++ "%")%string
  = (lower_tail L lead rest s ++ "%")%string.
Proof.
  revert lead rest. induction s as [|x s IH]; intros lead rest; simpl.
  - reflexivity.
  - destruct (is_continuation x); [apply IH|].
    rewrite IH. symmetry. apply string_app_assoc.
Qed.

(** The [%] that closes the pattern is a character of its own. *)
Lemma lower_percent_end (L : Locale) (s : string) :
  lower L (s ++ "%")%string = (lower L s ++ "%")%string.
Proof.
  destruct s as [|c s]; [reflexivity|]. simpl. apply lower_tail_percent.
Qed.

(** So is the [%] that opens it, before text that starts a character. *)
Lemma lower_percent_start (L : Locale) (s : string) :
  at_char_start s = true ->
  lower L (String "%" s) = String "%" (lower L s).
Proof.
  destruct s as [|c s]; [reflexivity|]. simpl. intros H.
  apply negb_true_iff in H. rewrite H. reflexivity.
Qed.

Lemma at_char_start_percent (s : string) :
  at_char_start s = true -> at_char_start (s ++ "%")%string = true.
Proof. destruct s; intros H; [reflexivity | exact H]. Qed.

Lemma lower_search_pattern (L : Locale) (term : string) :
  at_char_start term = true ->
  lower L (search_pattern term) = search_pattern (lower L term).
Proof.
  intros H. unfold search_pattern. simpl append.
  rewrite lower_percent_start by (apply at_char_start_percent; exact H).
  rewrite lower_percent_end. reflexivity.
Qed.

Lemma utf8_valid_at_char_start (term : string) :
  utf8_valid term = true -> at_char_start term = true.
Proof.
  destruct term as [|c term]; [reflexivity|]. unfold utf8_valid.
  destruct c as [[] [] [] [] [] [] [] []]; simpl;
    intros H; first [reflexivity | discriminate H].
Qed.

(** The pattern [search_queries] builds never ends inside an escape, so
    PostgreSQL never rejects it. *)
Lemma dangling_escape_percent (term : string) :
  dangling_escape (term ++ "%")%string = false
  /\ forall c, dangling_escape (String c (term ++ "%")%string) = false.
Proof.
  induction term as [|a term [IH1 IH2]].
  - split; [reflexivity|]. intros c. simpl.
    destruct (Ascii.eqb c "\"); reflexivity.
  - split; [apply IH2|]. intros c.
    change (dangling_escape (String c (String a (term ++ "%")%string)) = false).
    simpl. destruct (Ascii.eqb c "\"); [exact IH1 | apply IH2].
Qed.

Lemma search_pattern_terminated (L : Locale) (search_term : string) :
  dangling_escape (lower L (search_pattern search_term)) = false.
Proof.
  unfold search_pattern.
  change ("%" ++ search_term ++ "%")%string
    with ((String "%" search_term) ++ "%")%string.
  rewrite lower_percent_end.
  apply (proj1 (dangling_escape_percent (lower L (String "%" search_term)))).
Qed.

(** For a term that is plain once lower-cased, [ILIKE '%term%'] is the
    case-blind substring test. *)
Lemma ilike_plain_term (L : Locale) (text term : string) :
  at_char_start term = true ->
  wildcard_free (lower L term) = true ->
  at_char_start (lower L term) = true ->
  ilike L text (search_pattern term) = icontains L text term.
Proof.
  intros Hstart Hfree Hlstart. unfold ilike, icontains.
  rewrite lower_search_pattern by exact Hstart.
  unfold search_pattern. simpl append.
  rewrite like_percent.
  rewrite (like_scan_ext _ (prefix (lower L term))).
  - apply like_scan_contains. exact Hlstart.
  - intros u. apply like_plain_prefix. exact Hfree.
Qed.

(** ** Slicing text by characters *)

Lemma continuation_split (s : string) :
  s = (continuation_prefix s ++ skip_continuation s)%string.
Proof.
  induction s as [|c s IH]; simpl; [reflexivity|].
  destruct (is_continuation c); simpl; [f_equal; exact IH | reflexivity].
Qed.

Lemma lead_count_app (a b : string) :
  lead_count (a ++ b)%string = lead_count a + lead_count b.
Proof.
  induction a as [|c a IH]; simpl; [reflexivity|]. rewrite IH. lia.
Qed.

Lemma lead_count_continuation_prefix (s : string) :
  lead_count (continuation_prefix s) = 0.
Proof.
  induction s as [|c s IH]; simpl; [reflexivity|].
  destruct (is_continuation c) eqn:Hc; simpl; [rewrite Hc; exact IH | reflexivity].
Qed.

Lemma lead_count_skip (s : string) :
  lead_count (skip_continuation s) = lead_count s.
Proof.
  rewrite (continuation_split s) at 2.
  rewrite lead_count_app, lead_count_continuation_prefix. reflexivity.
Qed.

Lemma skip_continuation_start (s : string) :
  at_char_start (skip_continuation s) = true.
Proof.
  induction s as [|c s IH]; simpl; [reflexivity|].
  destruct (is_continuation c) eqn:Hc; [exact IH|]. simpl. rewrite Hc. reflexivity.
Qed.

Lemma char_count_at_start (s : string) :
  at_char_start s = true -> char_count s = lead_count s.
Proof.
  destruct s as [|c s]; simpl; [reflexivity|].
  intros H. apply negb_true_iff in H. rewrite H. reflexivity.
Qed.

Lemma lead_count_le_char_count (s : string) : lead_count s <= char_count s.
Proof.
  destruct s as [|c s]; simpl; [lia|]. destruct (is_continuation c); lia.
Qed.

Lemma take_chars_prefix (n : nat) (s : string) :
  exists rest, s = (take_chars n s ++ rest)%string.
Proof.
  revert s. induction n as [|n IH]; intros s; [exists s; reflexivity|].
  destruct s as [|c s]; [exists EmptyString; reflexivity|].
  destruct (IH (skip_continuation s)) as [rest Hrest].
  exists rest. simpl. f_equal.
  rewrite string_app_assoc. rewrite <- Hrest.
  apply continuation_split.
Qed.

Lemma take_chars_count (n : nat) (s : string) :
  char_count (take_chars n s) <= n.
Proof.
  revert s. induction n as [|n IH]; intros s; [simpl; lia|].
  destruct s as [|c s]; [simpl; lia|].
  simpl. rewrite lead_count_app, lead_count_continuation_prefix. simpl.
  pose proof (lead_count_le_char_count (take_chars n (skip_continuation s))).
  pose proof (IH (skip_continuation s)). lia.
Qed.

Lemma take_chars_all (n : nat) (s : string) :
  char_count s <= n -> take_chars n s = s.
Proof.
  revert s. induction n as [|n IH]; intros s H.
  - destruct s; [reflexivity | simpl in H; lia].
  - destruct s as [|c s]; [reflexivity|]. simpl in *. f_equal.
    rewrite IH.
    + symmetry. apply continuation_split.
    + rewrite char_count_at_start by apply skip_continuation_start.
      rewrite lead_count_skip. lia.
Qed.

Lemma cache_hit_truncated (W : World) (row : Query.t) :
  CacheHit.query_truncated (cache_hit W row) = take_chars 100 (Query.query row).
Proof.
  unfold cache_hit. simpl.
  destruct (String.eqb_spec (Query.query row) EmptyString) as [->|_];
    reflexivity.
Qed.

Lemma search_queries_ok (L : Locale) (W : World) (queries : Queries)
    (search_term : string) (limit : Z) :
  (0 <= limit)%Z ->
  search_queries L W queries search_term limit
  = Ok (map (cache_hit W)
          (firstn (Z.to_nat limit)
             (filter (fun q => ilike L (Query.query q)
                                 (search_pattern search_term)) queries))).
Proof.
  intros H. unfold search_queries.
  destruct (Z.ltb_spec limit 0); [lia | reflexivity].
Qed.

(** ** What [search_queries] matches *)

(** X16. For a search term that is text and, once lower-cased by the
    database's locale, has no [%], [_] or backslash in it and starts a
    character, [search_queries] is the case-blind substring search over
    the query text: it returns the hits of the first [limit] stored
    queries whose text, lower-cased, contains the lower-cased term. *)
Theorem search_queries_plain_term (L : Locale) (W : World) (queries : Queries)
    (search_term : string) (limit : Z) :
  utf8_valid search_term = true ->
  wildcard_free (lower L search_term) = true ->
  at_char_start (lower L search_term) = true ->
  (0 <= limit)%Z ->
  search_queries L W queries search_term limit
  = Ok (map (cache_hit W)
          (firstn (Z.to_nat limit)
             (filter (fun q => icontains L (Query.query q) search_term)
                queries)))
  /\ forall q,
       icontains L (Query.query q) search_term = true
       <-> exists before rest,
             lower L (Query.query q)
             = (before ++ lower L search_term ++ rest)%string.
Proof.
  intros Hvalid Hfree Hlstart Hlimit. split.
  - rewrite search_queries_ok by exact Hlimit.
    do 3 f_equal. apply filter_ext. intros q.
    apply ilike_plain_term; [|exact Hfree | exact Hlstart].
    apply utf8_valid_at_char_start. exact Hvalid.
  - intros q. apply icontains_substring.
Qed.

Lemma search_queries_plain_term_witness :
  search_queries latin_locale (world 9 0)
    [Query.mk 1 "How do REACT hooks work?" None None None "Answer"
       None None 0 5 5;
     Query.mk 2 "CAFÉ au lait" None None None "Answer"
       None None 0 6 6;
     Query.mk 3 "Un café, s'il vous plaît" None None None "Answer"
       None None 0 7 7]
    "café" 10
  = Ok (map (cache_hit (world 9 0))
          [Query.mk 2 "CAFÉ au lait" None None None "Answer"
             None None 0 6 6;
           Query.mk 3 "Un café, s'il vous plaît" None None None "Answer"
             None None 0 7 7]).
Proof.
  rewrite (proj1 (search_queries_plain_term latin_locale (world 9 0) _ "café" 10
                    eq_refl eq_refl eq_refl ltac:(lia))).
  reflexivity.
Defined.

Lemma like_scan_here (f : string -> bool) (t : string) :
  f t = true -> like_scan f true t = true.
Proof. intros H. destruct t; simpl; rewrite H; reflexivity. Qed.

(** X17. The search term is not escaped: an empty term and the term [%]
    match every stored query, and the term [_] matches every query whose
    text is not empty, whatever the texts are. *)
Theorem search_queries_wildcards (L : Locale) (W : World) (queries : Queries)
    (limit : Z) :
  search_queries L W queries EmptyString limit
  = (if (limit <? 0)%Z then Raise DBAPIError
     else Ok (map (cache_hit W) (firstn (Z.to_nat limit) queries)))
  /\ search_queries L W queries "%" limit
     = search_queries L W queries EmptyString limit
  /\ search_queries L W queries "_" limit
     = (if (limit <? 0)%Z then Raise DBAPIError
        else Ok (map (cache_hit W)
                   (firstn (Z.to_nat limit)
                      (filter (fun q => negb (Query.query q =? EmptyString))
                         queries)))).
Proof.
  assert (Hall : forall p, (p = "%%" \/ p = "%%%")%string ->
            filter (fun q : Query.t => like p (lower L (Query.query q))) queries
            = queries).
  { intros p Hp. apply forallb_filter_id. apply forallb_forall. intros q _.
    destruct Hp as [-> | ->].
    - rewrite like_percent. apply like_scan_here. apply like_any.
    - rewrite like_percent. apply like_scan_here.
      rewrite like_percent. apply like_scan_here. apply like_any. }
  unfold search_queries, ilike, search_pattern.
  change (lower L ("%" ++ "" ++ "%")) with "%%"%string.
  change (lower L ("%" ++ "%" ++ "%")) with "%%%"%string.
  change (lower L ("%" ++ "_" ++ "%")) with "%_%"%string.
  split; [|split].
  - destruct (limit <? 0)%Z; [reflexivity|]. rewrite Hall by auto. reflexivity.
  - destruct (limit <? 0)%Z; [reflexivity|]. rewrite !Hall by auto. reflexivity.
  - destruct (limit <? 0)%Z; [reflexivity|]. do 3 f_equal.
    apply filter_ext. intros q.
    destruct (Query.query q) as [|c u]; [reflexivity|].
    destruct (lower_tail_cons L c EmptyString u) as [x [r E]].
    change (lower L (String c u)) with (lower_tail L c EmptyString u).
    rewrite E. rewrite like_percent. apply like_scan_here. simpl. apply like_any.
Qed.

(** ** What a hit carries *)

(** X18. For a limit that is not negative [search_queries] returns at most
    [limit] hits, each made from a stored query whose text matches the
    pattern: the hit has that query's id, library and version, a
    [query_truncated] that is the first 100 characters of the text (a
    prefix of at most 100 characters, the whole text when it has no more),
    and an [age_days] that counts the whole days from [inserted_at] to the
    current instant, rounded down. *)
Theorem search_queries_hits (L : Locale) (W : World) (queries : Queries)
    (search_term : string) (limit : Z) :
  (0 <= limit)%Z ->
  exists hits,
    search_queries L W queries search_term limit = Ok hits
    /\ (Z.of_nat (List.length hits) <= limit)%Z
    /\ forall hit, In hit hits ->
         exists row,
           In row queries
           /\ ilike L (Query.query row) (search_pattern search_term) = true
           /\ CacheHit.query_id hit = Query.id row
           /\ CacheHit.library hit = Query.library row
           /\ CacheHit.version hit = Query.version row
           /\ (exists rest,
                 Query.query row
                 = (CacheHit.query_truncated hit ++ rest)%string)
           /\ char_count (CacheHit.query_truncated hit) <= 100
           /\ (char_count (Query.query row) <= 100 ->
               CacheHit.query_truncated hit = Query.query row)
           /\ (microseconds_per_day * CacheHit.age_days hit
               <= now W - Query.inserted_at row
               < microseconds_per_day * (CacheHit.age_days hit + 1))%Z.
Proof.
  intros Hlimit. eexists. split; [apply search_queries_ok; exact Hlimit|].
  split.
  - rewrite length_map.
    pose proof (firstn_le_length (Z.to_nat limit)
                  (filter (fun q => ilike L (Query.query q)
                                      (search_pattern search_term)) queries)).
    lia.
  - intros hit Hhit. apply in_map_iff in Hhit. destruct Hhit as [row [<- Hrow]].
    apply In_firstn in Hrow. apply filter_In in Hrow. destruct Hrow as [Hin Hm].
    exists row. split; [exact Hin|]. split; [exact Hm|].
    split; [reflexivity|]. split; [reflexivity|]. split; [reflexivity|].
    rewrite cache_hit_truncated.
    split; [apply take_chars_prefix|].
    split; [apply take_chars_count|].
    split; [apply take_chars_all|].
    change (CacheHit.age_days (cache_hit W row))
      with ((now W - Query.inserted_at row) / 86400000000)%Z.
    change microseconds_per_day with 86400000000%Z.
    pose proof (Z.mul_div_le (now W - Query.inserted_at row) 86400000000
                  ltac:(lia)).
    pose proof (Z.mul_succ_div_gt (now W - Query.inserted_at row) 86400000000
                  ltac:(lia)).
    lia.
Qed.

Lemma search_queries_hits_witness :
  (0 <= 1)%Z
  /\ exists hits,
       search_queries c_locale (world 86400000005 0)
         [Query.mk 1 "React component lifecycle" (Some "js") (Some "react")
            None "Answer 2" None None 0 5 5]
         "React" 1
       = Ok hits
       /\ (Z.of_nat (List.length hits) <= 1)%Z.
Proof.
  split; [lia|].
  destruct (search_queries_hits c_locale (world 86400000005 0)
              [Query.mk 1 "React component lifecycle" (Some "js")
                 (Some "react") None "Answer 2" None None 0 5 5]
              "React" 1 ltac:(lia)) as [hits [Hrun [Hlen _]]].
  exists hits. split; assumption.
Defined.

(** * The rows an upsert leaves alone *)

Lemma flush_filter_others (M : Models) (W : World)
    (content content_hash : string) (depth : Z) (pk : UUID)
    (p : Document.t -> bool) (documents : Documents) :
  (forall d, p (assign M W content content_hash depth d) = p d) ->
  (forall d, In d documents -> p d = true -> Document.id d <> pk) ->
  filter p (session_flush pk (assign M W content content_hash depth) documents)
  = filter p documents.
Proof.
  intros Hp Hother.
  change (filter p (session_flush pk (assign M W content content_hash depth)
                      documents))
    with (select_where p
            (session_flush pk (assign M W content content_hash depth) documents)).
  rewrite flush_select by exact Hp. unfold select_where.
  rewrite <- (map_id (filter p documents)) at 2.
  apply map_ext_in. intros d Hd. apply filter_In in Hd. destruct Hd as [Hin Hpd].
  destruct (N.eqb_spec (Document.id d) pk) as [E|_]; [|reflexivity].
  exfalso. exact (Hother d Hin Hpd E).
Qed.

(** X19. On a table with unique primary keys, a [save_document] for one
    url leaves the rows of every other url exactly as they were and in
    their order, whichever of the three outcomes it has. *)
Theorem save_document_other_rows (M : Models) (W : World)
    (documents : Documents)
    (domain url path content content_hash : string) (depth : Z)
    (documents' : Documents) (r : SaveResult) :
  NoDup (map Document.id documents) ->
  save_document M W documents domain url path content content_hash depth
  = Ok (documents', r) ->
  select_where (fun d => negb (Document.url d =? url)) documents'
  = select_where (fun d => negb (Document.url d =? url)) documents.
Proof.
  intros Hpk H. unfold select_where. apply save_document_cases in H.
  destruct H as [[_ [-> _]] | [[e [Hsel [_ [-> _]]]] | [e [_ [_ [-> _]]]]]].
  - rewrite filter_app. simpl. rewrite String.eqb_refl. simpl. apply app_nil_r.
  - apply flush_filter_others; [reflexivity|].
    intros d Hin Hurl E.
    destruct (select_url_head _ _ _ _ Hsel) as [He Heurl].
    assert (Hd : e = d) by (apply (unique_key_eq Document.id documents e d);
                             auto).
    subst d. rewrite Heurl, String.eqb_refl in Hurl. discriminate Hurl.
  - reflexivity.
Qed.

Lemma save_document_other_rows_witness :
  NoDup (map Document.id [react_hooks; react_components])
  /\ select_where
       (fun d => negb (Document.url d =? "https://react.dev/hooks"))
       (session_flush 1 (assign sample_models (world 50 9) "# Hooks, revised"
                           "hash-of-revised" 0)
          [react_hooks; react_components])
     = [react_components].
Proof.
  assert (Hpk : NoDup (map Document.id [react_hooks; react_components])).
  { simpl. constructor.
    - intros [H|[]]. discriminate H.
    - constructor; [intros [] | constructor]. }
  split; [exact Hpk|].
  exact (save_document_other_rows sample_models (world 50 9)
           [react_hooks; react_components]
           "react.dev" "https://react.dev/hooks" "/hooks" "# Hooks, revised"
           "hash-of-revised" 0 _ UPDATED Hpk eq_refl).
Defined.
